(** * Spreadsheet ingestion of antenne-database (src/server.js)

    Shallow embedding of the two upload handlers of [src/server.js]
    ([/api/booksonix/upload] and [/api/gazelle/upload]), of the helper
    [parseExcelDate], and of the parts of the JavaScript runtime and of
    PostgreSQL they rely on; then of the paged listings, the user
    management routes, the report query builder and the CSV export.

    Conventions of the model.
    - Strings are Rocq [string]s (bytes); a non-ASCII glyph such as the
      pound sign is its UTF-8 byte sequence.  The regular expressions of
      the source act on single ASCII characters or on such sequences.
    - A spreadsheet row, as returned by [xlsx.utils.sheet_to_json], is a
      JavaScript object: a [gmap string cell] from column label to cell.
    - JavaScript numbers are decimals [m * 10^(-e)]; NaN, the infinities
      and exponent rendering of very large or small numbers are not
      modelled.
    - The process time zone is UTC, so local-time and UTC date
      constructors agree. *)

From stdpp Require Import base gmap list strings.
From Stdlib Require Import ZArith Ascii String Lia.

Local Open Scope Z_scope.

(* ------------------------------------------------------------------ *)
(** ** Characters and strings *)

Module Str.

Definition is_digit (c : ascii) : bool :=
  let n := Z.of_nat (nat_of_ascii c) in (48 <=? n) && (n <=? 57).

Definition digit_val (c : ascii) : Z := Z.of_nat (nat_of_ascii c) - 48.

(** The white space of [String.prototype.trim], [parseInt] and
    [parseFloat] (WhiteSpace and LineTerminator of ECMAScript), by its
    UTF-8 encoding: the one-byte characters TAB, LF, VT, FF, CR and
    SPACE; U+00A0; and U+1680, U+2000 to U+200A, U+2028, U+2029, U+202F,
    U+205F, U+3000 and U+FEFF. *)
Definition is_ws (c : ascii) : bool :=
  let n := nat_of_ascii c in
  (n =? 32)%nat || (n =? 9)%nat || (n =? 10)%nat || (n =? 11)%nat
  || (n =? 12)%nat || (n =? 13)%nat.

Definition is_ws2 (a b : ascii) : bool :=
  (nat_of_ascii a =? 194)%nat && (nat_of_ascii b =? 160)%nat.

Definition is_ws3 (a b c : ascii) : bool :=
  let a := nat_of_ascii a in
  let b := nat_of_ascii b in
  let c := nat_of_ascii c in
  ((a =? 225)%nat && (b =? 154)%nat && (c =? 128)%nat)
  || ((a =? 226)%nat && (b =? 128)%nat
      && (((128 <=? c)%nat && (c <=? 138)%nat) || (c =? 168)%nat || (c =? 169)%nat
          || (c =? 175)%nat))
  || ((a =? 226)%nat && (b =? 129)%nat && (c =? 159)%nat)
  || ((a =? 227)%nat && (b =? 128)%nat && (c =? 128)%nat)
  || ((a =? 239)%nat && (b =? 187)%nat && (c =? 191)%nat).

(** Leading white space removed from [l]; with [fwd = false], [l] is a
    text read backwards, each encoding matched in reverse. *)
Fixpoint drop_ws_by (fwd : bool) (l : list ascii) : list ascii :=
  match l with
  | [] => []
  | c1 :: l1 =>
      if is_ws c1 then drop_ws_by fwd l1 else
      match l1 with
      | [] => l
      | c2 :: l2 =>
          if (if fwd then is_ws2 c1 c2 else is_ws2 c2 c1) then drop_ws_by fwd l2 else
          match l2 with
          | [] => l
          | c3 :: l3 =>
              if (if fwd then is_ws3 c1 c2 c3 else is_ws3 c3 c2 c1)
              then drop_ws_by fwd l3 else l
          end
      end
  end.

Definition drop_ws (l : list ascii) : list ascii := drop_ws_by true l.

(** [s.trim()] *)
Definition trim (s : string) : string :=
  string_of_list_ascii
    (rev (drop_ws_by false (rev (drop_ws (list_ascii_of_string s))))).

Definition to_upper (c : ascii) : ascii :=
  let n := nat_of_ascii c in
  if ((97 <=? n)%nat && (n <=? 122)%nat) then ascii_of_nat (n - 32) else c.

(** [needle] is a prefix of [l], comparing characters with [eqc]. *)
Fixpoint prefix_by (eqc : ascii -> ascii -> bool) (needle l : list ascii) : bool :=
  match needle, l with
  | [], _ => true
  | n :: ns, c :: cs => eqc n c && prefix_by eqc ns cs
  | _ :: _, [] => false
  end.

(** One pass of a global replacement by '': at each position the first
    needle that matches is removed, otherwise the character is kept. *)
Fixpoint remove_all_aux (fuel : nat) (eqc : ascii -> ascii -> bool)
    (needles : list (list ascii)) (l : list ascii) : list ascii :=
  match fuel with
  | O => l
  | S f =>
      match l with
      | [] => []
      | c :: l' =>
          match List.find (fun n => prefix_by eqc n l) needles with
          | Some n => remove_all_aux f eqc needles (skipn (List.length n) l)
          | None => c :: remove_all_aux f eqc needles l'
          end
      end
  end.

Definition ascii_eqb (a b : ascii) : bool := Ascii.eqb a b.
Definition ascii_eqb_ci (a b : ascii) : bool := Ascii.eqb (to_upper a) (to_upper b).

(** [s.replace(/needle/g, '')] for a non-empty literal [needle]:
    leftmost, non-overlapping occurrences are removed. *)
Definition remove_all (needle s : string) : string :=
  string_of_list_ascii
    (remove_all_aux (String.length s) ascii_eqb
       [list_ascii_of_string needle] (list_ascii_of_string s)).

(** [s.replace(/[abc]/g, '')] for a class of (possibly multi-byte)
    characters. *)
Definition remove_any (needles : list string) (s : string) : string :=
  string_of_list_ascii
    (remove_all_aux (String.length s) ascii_eqb
       (List.map list_ascii_of_string needles) (list_ascii_of_string s)).

(** [s.replace(/needle/gi, '')]: the same, ignoring ASCII case. *)
Definition remove_all_ci (needle s : string) : string :=
  string_of_list_ascii
    (remove_all_aux (String.length s) ascii_eqb_ci
       [list_ascii_of_string needle] (list_ascii_of_string s)).

(** [s.replace(/[^...]/g, '')]: keep the characters satisfying [keep]. *)
Definition keep_only (keep : ascii -> bool) (s : string) : string :=
  string_of_list_ascii (List.filter keep (list_ascii_of_string s)).

Definition is_digit_or_dot (c : ascii) : bool := is_digit c || Ascii.eqb c ".".
Definition is_digit_or_minus (c : ascii) : bool := is_digit c || Ascii.eqb c "-".

(** [s.includes(sub)] *)
Fixpoint includes_aux (sub l : list ascii) : bool :=
  prefix_by ascii_eqb sub l ||
  match l with
  | [] => false
  | _ :: l' => includes_aux sub l'
  end.

Definition includes (s sub : string) : bool :=
  includes_aux (list_ascii_of_string sub) (list_ascii_of_string s).

Fixpoint drop_zeros (l : list ascii) : list ascii :=
  match l with
  | c :: l' => if Ascii.eqb c "0" then drop_zeros l' else l
  | [] => []
  end.

(** Decimal rendering of a natural number. *)
Fixpoint digits_aux (fuel : nat) (n : Z) (acc : list ascii) : list ascii :=
  match fuel with
  | O => acc
  | S f =>
      let acc' := ascii_of_nat (Z.to_nat (48 + n mod 10)) :: acc in
      if n <? 10 then acc' else digits_aux f (n / 10) acc'
  end.

Definition digits (n : Z) : list ascii := digits_aux (S (Z.to_nat (Z.log2 n))) n [].

End Str.

(* ------------------------------------------------------------------ *)
(** ** JavaScript values *)

(** A spreadsheet cell as produced by [sheet_to_json]: a string, a
    number [m * 10^(-e)] or a boolean. *)
Inductive cell :=
| CStr (s : string)
| CNum (m : Z) (e : nat)
| CBool (b : bool).

(** JavaScript truthiness, which decides the [a || b] chains. *)
Definition truthy (v : cell) : bool :=
  match v with
  | CStr s => negb (String.eqb s "")
  | CNum m _ => negb (m =? 0)
  | CBool b => b
  end.

(** [String(x)] / [x.toString()] of a number: shortest decimal form,
    trailing fractional zeros dropped.  This is the plain notation JS
    uses for magnitudes from [1e-6] below [1e21]; JS writes a number
    outside that range in exponent notation ([1e+21], [1e-7]), which
    this function does not (the paged listings, whose texts can reach
    that range, use [Paging.to_string]). *)
Definition number_to_string (m : Z) (e : nat) : string :=
  let a := Z.abs m in
  let p := 10 ^ Z.of_nat e in
  let ip := Str.digits (a / p) in
  let fp := Str.digits (p + a mod p) in   (* leading 1 pads to e digits *)
  let frac := rev (Str.drop_zeros (rev (List.tl fp))) in
  let body := if decide (frac = []) then ip else ip ++ ["."%char] ++ frac in
  string_of_list_ascii (if m <? 0 then "-"%char :: body else body).

(** [String(x)] of a cell, also what [pg] sends for a non-string parameter. *)
Definition js_to_string (v : cell) : string :=
  match v with
  | CStr s => s
  | CNum m e => number_to_string m e
  | CBool true => "true"
  | CBool false => "false"
  end.

(** A row of [sheet_to_json]: column label to cell; a missing label reads
    as [undefined]. *)
Abbreviation row := (gmap string cell).

(** ** Column resolution: [row['A'] || row['B'] || ... || last]

    [resolve r aliases last] is the value of the chain: the first alias
    whose cell is truthy, otherwise the last operand [last], returned as
    it is ([None] is [undefined]). *)
Fixpoint resolve (r : row) (aliases : list string) (last : option cell) : option cell :=
  match aliases with
  | [] => last
  | a :: rest =>
      match r !! a with
      | Some v => if truthy v then Some v else resolve r rest last
      | None => resolve r rest last
      end
  end.

(** The chain ends in a literal default ([|| ''] or [|| 0]). *)
Definition resolve_or (r : row) (aliases : list string) (dflt : cell) : cell :=
  match resolve r aliases (Some dflt) with
  | Some v => v
  | None => dflt
  end.

(* ------------------------------------------------------------------ *)
(** ** Number parsing of the JavaScript runtime *)

Module Num.
Import Str.

Fixpoint take_digits (l : list ascii) : list ascii * list ascii :=
  match l with
  | c :: l' =>
      if is_digit c then let '(ds, r) := take_digits l' in (c :: ds, r) else ([], l)
  | [] => ([], [])
  end.

Definition digits_value (ds : list ascii) : Z :=
  fold_left (fun acc c => acc * 10 + digit_val c) ds 0.

(** Optional sign of a numeric literal: [(negative, rest)]. *)
Definition take_sign (l : list ascii) : bool * list ascii :=
  match l with
  | c :: r =>
      if Ascii.eqb c "-" then (true, r)
      else if Ascii.eqb c "+" then (false, r) else (false, l)
  | [] => (false, [])
  end.

(** Exponent part [e[+-]digits] at the head of [l], 0 when absent. *)
Definition exponent (l : list ascii) : Z :=
  match l with
  | c :: r =>
      if Ascii.eqb c "e" || Ascii.eqb c "E" then
        let '(neg, r1) := take_sign r in
        let '(ds, _) := take_digits r1 in
        match ds with
        | [] => 0
        | _ => if neg then - digits_value ds else digits_value ds
        end
      else 0
  | [] => 0
  end.

(** A number read by [parseFloat]: the decimal [m * 10^(-e)], or an
    infinity.  (Decimals are kept exact: a value beyond the range of
    doubles, which JavaScript reads as an infinity or as 0, is only ever
    stored through a [DECIMAL] column, where both readings give the same
    result: an overflow error, or 0.) *)
Inductive number :=
| Finite (m : Z) (e : nat)
| Infinite (neg : bool).

(** [parseFloat(s)]: after leading white space and a sign, the literal
    [Infinity] or the longest decimal-literal prefix; [None] is NaN. *)
Definition parse_float (s : string) : option number :=
  let l := drop_ws (list_ascii_of_string s) in
  let '(neg, l1) := take_sign l in
  if prefix_by ascii_eqb (list_ascii_of_string "Infinity") l1 then Some (Infinite neg) else
  let '(ip, l2) := take_digits l1 in
  let '(fp, l3) :=
    match l2 with
    | c :: r => if Ascii.eqb c "." then take_digits r else ([], l2)
    | [] => ([], [])
    end in
  match ip ++ fp with
  | [] => None
  | ds =>
      let m := digits_value ds in
      let m := if neg then - m else m in
      let k := exponent l3 - Z.of_nat (List.length fp) in
      if 0 <=? k then Some (Finite (m * 10 ^ k) 0) else Some (Finite m (Z.to_nat (- k)))
  end.

(** [parseInt(s)] / [parseInt(s, 10)]: sign and decimal digits after
    leading white space; [None] is NaN. *)
Definition parse_int (s : string) : option Z :=
  let l := drop_ws (list_ascii_of_string s) in
  let '(neg, l1) := take_sign l in
  match take_digits l1 with
  | ([], _) => None
  | (ds, _) => Some (if neg then - digits_value ds else digits_value ds)
  end.

(** [parseFloat(s) || 0]: NaN and zero give the number 0. *)
Definition float_or_zero (s : string) : number :=
  match parse_float s with
  | Some (Finite m e) => if m =? 0 then Finite 0 0 else Finite m e
  | Some (Infinite neg) => Infinite neg
  | None => Finite 0 0
  end.

Definition int_or_zero (s : string) : Z :=
  match parse_int s with
  | Some n => n
  | None => 0
  end.

End Num.

(* ------------------------------------------------------------------ *)
(** ** Dates of the JavaScript runtime *)

Module JSDate.

Definition ms_per_day : Z := 86400000.

(** Days from 1970-01-01 to the proleptic Gregorian date [y-m-d]. *)
Definition days_from_civil (y m d : Z) : Z :=
  let y' := if m <=? 2 then y - 1 else y in
  let era := y' / 400 in
  let yoe := y' - era * 400 in
  let mp := if 2 <? m then m - 3 else m + 9 in
  let doy := (153 * mp + 2) / 5 + d - 1 in
  let doe := yoe * 365 + yoe / 4 - yoe / 100 + doy in
  era * 146097 + doe - 719468.

(** The calendar date [(y, m, d)] of a day number. *)
Definition civil_from_days (z : Z) : Z * Z * Z :=
  let z := z + 719468 in
  let era := z / 146097 in
  let doe := z - era * 146097 in
  let yoe := (doe - doe / 1460 + doe / 36524 - doe / 146096) / 365 in
  let doy := doe - (365 * yoe + yoe / 4 - yoe / 100) in
  let mp := (5 * doy + 2) / 153 in
  let d := doy - (153 * mp + 2) / 5 + 1 in
  let m := if mp <? 10 then mp + 3 else mp - 9 in
  (yoe + era * 400 + (if m <=? 2 then 1 else 0), m, d).

(** The calendar date (in the UTC zone) of a time value. *)
Definition date_of (t : Z) : Z * Z * Z := civil_from_days (t / ms_per_day).

(** MakeDay(year, month (0-based, may overflow), date). *)
Definition make_day (y mon d : Z) : Z :=
  days_from_civil (y + mon / 12) (mon mod 12 + 1) 1 + d - 1.

(** TimeClip: time values beyond 8.64e15 ms are the invalid date. *)
Definition time_clip (t : Z) : option Z :=
  if Z.abs t <=? 8640000000000000 then Some t else None.

(** [new Date(num / den)] for [den > 0]: TimeClip, then truncation
    towards zero. *)
Definition from_ms_ratio (num den : Z) : option Z :=
  if Z.abs num <=? 8640000000000000 * den then Some (Z.quot num den) else None.

(** [new Date(y, mon, d)]; two-digit years are 1900-based. *)
Definition local (y mon d : Z) : option Z :=
  let y := if (0 <=? y) && (y <=? 99) then 1900 + y else y in
  time_clip (make_day y mon d * ms_per_day).

Fixpoint split_on (sep : ascii) (l : list ascii) : list (list ascii) :=
  match l with
  | [] => [[]]
  | c :: l' =>
      match split_on sep l' with
      | p :: ps => if Ascii.eqb c sep then [] :: p :: ps else (c :: p) :: ps
      | [] => [[c]]
      end
  end.

Definition all_digits (l : list ascii) : bool := forallb Str.is_digit l.

(** The two string shapes of [new Date(string)] (V8's [Date.parse])
    that the date columns take: the ISO date [YYYY-MM-DD], read in UTC,
    and the legacy [a/b/c] form, read month first (year first when the
    first number is no day number), with 2-digit years mapped to 19xx or
    20xx; V8 checks only [1 <= month <= 12] and [1 <= day <= 31] and lets
    MakeDay roll the day over.  Every other string is treated as
    unparsable here. *)
Definition iso_date (l : list ascii) : option (option Z) :=
  match l with
  | [y1; y2; y3; y4; h1; m1; m2; h2; d1; d2] =>
      if all_digits [y1; y2; y3; y4; m1; m2; d1; d2]
         && Ascii.eqb h1 "-" && Ascii.eqb h2 "-" then
        let y := Num.digits_value [y1; y2; y3; y4] in
        let m := Num.digits_value [m1; m2] in
        let d := Num.digits_value [d1; d2] in
        if (1 <=? m) && (m <=? 12) && (1 <=? d) && (d <=? 31)
        then Some (time_clip (make_day y (m - 1) d * ms_per_day)) else Some None
      else None
  | _ => None
  end.

Definition legacy_slash_date (l : list ascii) : option Z :=
  match split_on "/" l with
  | [a; b; c] =>
      if negb (all_digits a && all_digits b && all_digits c)
         || Nat.eqb (List.length a) 0 || Nat.eqb (List.length b) 0
         || Nat.eqb (List.length c) 0 then None
      else
        let a := Num.digits_value a in
        let b := Num.digits_value b in
        let c := Num.digits_value c in
        let '(y, m, d) :=
          if (1 <=? a) && (a <=? 31) then (c, a, b) else (a, b, c) in
        let y := if (0 <=? y) && (y <=? 49) then y + 2000
                 else if (50 <=? y) && (y <=? 99) then y + 1900 else y in
        if (1 <=? m) && (m <=? 12) && (1 <=? d) && (d <=? 31)
        then time_clip (make_day y (m - 1) d * ms_per_day) else None
  | _ => None
  end.

(** The two string shapes of [new Date(string)] (V8's [Date.parse])
    that the date columns take: the ISO date [YYYY-MM-DD], read in UTC
    ([iso_date] is [Some] on that shape), and the legacy [a/b/c] form,
    read month first (year first when the first number is no day
    number), with 2-digit years mapped to 19xx or 20xx.  V8 checks only
    [1 <= month <= 12] and [1 <= day <= 31] and lets MakeDay roll the day
    over.  Every other string is treated as unparsable here. *)
Definition date_parse (s : string) : option Z :=
  let l := list_ascii_of_string s in
  match iso_date l with
  | Some r => r
  | None => legacy_slash_date l
  end.

End JSDate.

(* ------------------------------------------------------------------ *)
(** ** [parseExcelDate] (src/server.js) *)

(** The values [parseExcelDate] may receive; a number is the decimal
    [m * 10^(-e)]. *)
Inductive jsval :=
| JUndefined
| JNull
| JBool (b : bool)
| JNum (m : Z) (e : nat)
| JStr (s : string)
| JDate (t : Z).

Definition js_truthy (v : jsval) : bool :=
  match v with
  | JUndefined | JNull => false
  | JBool b => b
  | JNum m _ => negb (m =? 0)
  | JStr s => negb (String.eqb s "")
  | JDate _ => true
  end.

(** [/^\d{1,2}\/\d{1,2}\/\d{4}$/] *)
Definition match_dmy (l : list ascii) : bool :=
  match JSDate.split_on "/" l with
  | [a; b; c] =>
      JSDate.all_digits a && JSDate.all_digits b && JSDate.all_digits c
      && (1 <=? List.length a)%nat && (List.length a <=? 2)%nat
      && (1 <=? List.length b)%nat && (List.length b <=? 2)%nat
      && (List.length c =? 4)%nat
  | _ => false
  end.

(** [/^\d{4}-\d{2}-\d{2}$/] *)
Definition match_iso (l : list ascii) : bool :=
  match l with
  | [y1; y2; y3; y4; h1; m1; m2; h2; d1; d2] =>
      JSDate.all_digits [y1; y2; y3; y4; m1; m2; d1; d2]
      && Ascii.eqb h1 "-" && Ascii.eqb h2 "-"
  | _ => false
  end.

Definition parseExcelDate (value : jsval) : option Z :=
  (* if (!value) return null; *)
  if negb (js_truthy value) then None else
  match value with
  | JDate t => Some t
  | JNum m e =>
      (* new Date((value - 25569) * 86400 * 1000), kept when valid;
         otherwise the string branch is skipped and null is returned *)
      let p := 10 ^ Z.of_nat e in
      match JSDate.from_ms_ratio ((m - 25569 * p) * 86400 * 1000) p with
      | Some t => Some t
      | None => None
      end
  | JStr s =>
      let trimmedValue := Str.trim s in
      (* new Date(trimmedValue), "ISO first" *)
      match JSDate.date_parse trimmedValue with
      | Some t => Some t
      | None =>
          let l := list_ascii_of_string trimmedValue in
          let dmy :=
            if match_dmy l then
              match JSDate.split_on "/" l with
              | p0 :: p1 :: p2 :: _ =>
                  match Num.parse_int (string_of_list_ascii p0),
                        Num.parse_int (string_of_list_ascii p1),
                        Num.parse_int (string_of_list_ascii p2) with
                  | Some day, Some month, Some year =>
                      JSDate.local year (month - 1) day
                  | _, _, _ => None
                  end
              | _ => None
              end
            else None in
          match dmy with
          | Some t => Some t
          | None =>
              if match_iso l then JSDate.date_parse trimmedValue else None
          end
      end
  | _ => None
  end.

(** Day-first reading of a [DD/MM/YYYY] string, as the comment of the
    DD/MM/YYYY branch of [parseExcelDate] describes it: the date
    [new Date(year, month - 1, day)] of the three fields. *)
Definition dmy_reading (day month year : Z) : option Z :=
  JSDate.local year (month - 1) day.

(* ------------------------------------------------------------------ *)
(** ** PostgreSQL: the column types of the two tables *)

Module PG.

Record error := { code : string; message : string }.

(** Error results of a statement (the [let?] notation below). *)
Definition bind_err {A B} (r : A + error) (k : A -> B + error) : B + error :=
  match r with
  | inl x => k x
  | inr e => inr e
  end.

Definition dquote : string := String (ascii_of_nat 34) EmptyString.

Definition nat_text (n : nat) : string := string_of_list_ascii (Str.digits (Z.of_nat n)).

(** UTF-8 continuation bytes; a character is counted at its first byte. *)
Definition is_cont (c : ascii) : bool :=
  (128 <=? nat_of_ascii c)%nat && (nat_of_ascii c <? 192)%nat.

Definition char_length (l : list ascii) : nat :=
  List.length (List.filter (fun c => negb (is_cont c)) l).

(** The bytes of the first [n] characters of [l], and the rest. *)
Fixpoint utf8_split (n : nat) (l : list ascii) : list ascii * list ascii :=
  match l with
  | [] => ([], [])
  | c :: l' =>
      if is_cont c then let '(a, b) := utf8_split n l' in (c :: a, b)
      else match n with
           | O => ([], l)
           | S n' => let '(a, b) := utf8_split n' l' in (c :: a, b)
           end
  end.

(** Assignment to [VARCHAR(n)]: a value longer than [n] characters is an
    error unless the excess characters are all spaces, which are cut
    off. *)
Definition varchar (n : nat) (s : string) : string + error :=
  let l := list_ascii_of_string s in
  if (char_length l <=? n)%nat then inl s
  else
    let '(a, b) := utf8_split n l in
    if forallb (fun c => Ascii.eqb c " ") b then inl (string_of_list_ascii a)
    else inr {| code := "22001";
                message := "value too long for type character varying(" ++ nat_text n ++ ")" |}.

(** Rounding of the decimal [m * 10^(-e)] to [s] fractional digits,
    half away from zero, as an integer count of [10^(-s)]. *)
Definition round_scaled (s : nat) (m : Z) (e : nat) : Z :=
  if (e <=? s)%nat then m * 10 ^ Z.of_nat (s - e)
  else
    let d := 10 ^ Z.of_nat (e - s) in
    let q := (2 * Z.abs m + d) / (2 * d) in
    if m <? 0 then - q else q.

(** Assignment to [DECIMAL(p, s)]: the value in units of [10^(-s)]; an
    infinity (sent as the text [Infinity]) does not fit either. *)
Definition decimal (p s : nat) (v : Num.number) : Z + error :=
  match v with
  | Num.Finite m e =>
      let q := round_scaled s m e in
      if Z.abs q <? 10 ^ Z.of_nat p then inl q
      else inr {| code := "22003"; message := "numeric field overflow" |}
  | Num.Infinite _ => inr {| code := "22003"; message := "numeric field overflow" |}
  end.

(** Assignment of a number parameter (sent as its text) to [INTEGER]. *)
Definition integer (q : Z) : Z + error :=
  if (- 2 ^ 31 <=? q) && (q <? 2 ^ 31) then inl q
  else inr {| code := "22003";
              message := "value " ++ dquote ++ number_to_string q 0 ++ dquote
                         ++ " is out of range for type integer" |}.

End PG.

Notation "'let?' x := r 'in' k" := (PG.bind_err r (fun x => k))
  (at level 200, x name, r at level 100, k at level 200).

(* ------------------------------------------------------------------ *)
(** ** [/api/booksonix/upload]: one row *)

Module Booksonix.

Definition sku_aliases : list string :=
  ["SKU"; "sku"; "Sku"; "Product SKU"; "Product Code"; "Item Code"; "Code"].
Definition isbn_aliases : list string := ["ISBN-13"; "ISBN13"; "isbn-13"; "ISBN"; "EAN"].
Definition title_aliases : list string := ["Title"; "TITLE"; "Product Title"].
Definition publisher_aliases : list string := ["Publishers"; "Publisher"; "PUBLISHER"].
Definition price_aliases : list string := ["Prices"; "Price"; "PRICE"; "RRP"].

(** [let sku = row['SKU'] || ... || '';  if (sku) sku = String(sku)
    .replace(/-/g, '').trim();  if (!sku) { skip }]: [None] is a skipped
    row. *)
Definition clean_sku (r : row) : option string :=
  let v := resolve_or r sku_aliases (CStr "") in
  if truthy v then
    let sku := Str.trim (Str.remove_all "-" (js_to_string v)) in
    if String.eqb sku "" then None else Some sku
  else None.

(** The ISBN, then [isbn || null]. *)
Definition clean_isbn (r : row) : option string :=
  let v := resolve_or r isbn_aliases (CStr "") in
  if truthy v then
    let isbn := Str.trim (Str.remove_all "-" (js_to_string v)) in
    if String.eqb isbn "" then None else Some isbn
  else None.

Definition clean_price_text (s : string) : string :=
  Str.trim (Str.keep_only Str.is_digit_or_dot
    (Str.remove_all "," (Str.remove_all "£" (Str.remove_all_ci "GBP" s)))).

(** [price = parseFloat(cleanPrice) || 0] when the price cell is truthy. *)
Definition clean_price (r : row) : Num.number :=
  let v := resolve_or r price_aliases (CStr "") in
  if truthy v then Num.float_or_zero (clean_price_text (js_to_string v))
  else Num.Finite 0 0.

(** The parameters [$1..$7] of the upsert. *)
Record params := {
  p_sku : string;
  p_isbn : option string;
  p_title : string;
  p_author : string;
  p_publisher : string;
  p_price : Num.number;
  p_quantity : Z }.

(** Resolver and normalizer of one row; [None] when the SKU is empty. *)
Definition normalize (r : row) : option params :=
  match clean_sku r with
  | None => None
  | Some sku =>
      Some {| p_sku := sku;
              p_isbn := clean_isbn r;
              p_title := js_to_string (resolve_or r title_aliases (CStr ""));
              p_author := "";
              p_publisher := js_to_string (resolve_or r publisher_aliases (CStr ""));
              p_price := clean_price r;
              p_quantity := 0 |}
  end.

(** A stored [booksonix_records] row, keyed by its unique [sku]; the
    surrogate [id] and the columns the upload never writes ([format],
    [publication_date], [description], [category]) are left out.  The
    timestamps are instants on a numeric scale. *)
Record record := {
  isbn : option string;
  title : string;
  author : string;
  publisher : string;
  price : Z;        (* DECIMAL(10,2), in hundredths *)
  quantity : Z;
  upload_date : Z;  (* DEFAULT CURRENT_TIMESTAMP *)
  last_updated : Z }.

Abbreviation store := (gmap string record).

(** [INSERT ... ON CONFLICT (sku) DO UPDATE SET isbn = COALESCE(NULLIF(
    EXCLUDED.isbn, ''), isbn), title = EXCLUDED.title, publisher =
    EXCLUDED.publisher, price = EXCLUDED.price, last_updated =
    CURRENT_TIMESTAMP RETURNING id, (xmax = 0) AS inserted], run as its
    own transaction at the instant [now] ([CURRENT_TIMESTAMP]): the new
    table and [inserted], or the error. *)
Definition upsert (now : Z) (p : params) (db : store) : (store * bool) + PG.error :=
  let? sku := PG.varchar 100 (p_sku p) in
  let? isbn' := match p_isbn p with
                | None => inl None
                | Some i => let? i := PG.varchar 50 i in inl (Some i)
                end in
  let? title' := PG.varchar 500 (p_title p) in
  let? author' := PG.varchar 500 (p_author p) in
  let? publisher' := PG.varchar 500 (p_publisher p) in
  let? price' := PG.decimal 10 2 (p_price p) in
  let? quantity' := PG.integer (p_quantity p) in
  match db !! sku with
  | None =>
      inl (<[sku := {| isbn := isbn'; title := title'; author := author';
                       publisher := publisher'; price := price';
                       quantity := quantity'; upload_date := now;
                       last_updated := now |}]> db, true)
  | Some old =>
      let isbn'' := match isbn' with
                    | Some i => if String.eqb i "" then isbn old else Some i
                    | None => isbn old
                    end in
      inl (<[sku := {| isbn := isbn''; title := title'; author := author old;
                       publisher := publisher'; price := price';
                       quantity := quantity old; upload_date := upload_date old;
                       last_updated := now |}]> db, false)
  end.

Record counters := {
  newRecords : nat;
  duplicates : nat;
  errors : nat;
  skippedNoSku : nat }.

Definition zero : counters := {| newRecords := 0; duplicates := 0; errors := 0; skippedNoSku := 0 |}.

Definition incr_new (c : counters) : counters :=
  {| newRecords := S (newRecords c); duplicates := duplicates c;
     errors := errors c; skippedNoSku := skippedNoSku c |}.
Definition incr_dup (c : counters) : counters :=
  {| newRecords := newRecords c; duplicates := S (duplicates c);
     errors := errors c; skippedNoSku := skippedNoSku c |}.
Definition incr_err (c : counters) : counters :=
  {| newRecords := newRecords c; duplicates := duplicates c;
     errors := S (errors c); skippedNoSku := skippedNoSku c |}.
(** [skippedNoSku++; errors++; continue;] *)
Definition incr_skip (c : counters) : counters :=
  {| newRecords := newRecords c; duplicates := duplicates c;
     errors := S (errors c); skippedNoSku := S (skippedNoSku c) |}.

(** One iteration of [for (const row of data)]; [now] is the instant of
    its statement. *)
Definition step (now : Z) (st : store * counters) (r : row) : store * counters :=
  let '(db, c) := st in
  match normalize r with
  | None => (db, incr_skip c)
  | Some p =>
      match upsert now p db with
      | inl (db', true) => (db', incr_new c)
      | inl (db', false) => (db', incr_dup c)
      | inr _ => (db, incr_err c)
      end
  end.

(** The loop from row [i] on; [clock i] is the instant at which the
    statement of row [i] runs (each [pool.query] is a transaction of its
    own, with its own [CURRENT_TIMESTAMP]). *)
Fixpoint ingest_from (clock : nat -> Z) (i : nat) (data : list row) (st : store * counters)
    : store * counters :=
  match data with
  | [] => st
  | r :: rest => ingest_from clock (S i) rest (step (clock i) st r)
  end.

Definition ingest (clock : nat -> Z) (data : list row) (db : store) : store * counters :=
  ingest_from clock 0 data (db, zero).

End Booksonix.

(* ------------------------------------------------------------------ *)
(** ** [/api/gazelle/upload]: one row *)

Definition cell_to_jsval (v : cell) : jsval :=
  match v with
  | CStr s => JStr s
  | CNum m e => JNum m e
  | CBool b => JBool b
  end.

Module Gazelle.

Definition order_ref_aliases : list string :=
  ["Order Ref"; "OrderRef"; "order_ref"; "Order Reference"; "Order No"; "Order Number"].
Definition customer_name_aliases : list string :=
  ["Customer Name"; "CustomerName"; "customer_name"; "Customer"; "Retailer Name"].
Definition city_aliases : list string := ["City"; "city"; "Town"].
Definition country_aliases : list string := ["Country"; "country"; "Country Code"].
Definition title_aliases : list string := ["Title"; "title"; "Book Title"; "Product Title"].
Definition isbn13_aliases : list string := ["ISBN-13"; "ISBN13"; "isbn13"; "ISBN"; "EAN"].
Definition publisher_aliases : list string := ["Publishers"; "Publisher"; "publisher"].
Definition format_aliases : list string := ["Format"; "format"; "Book Format"].
Definition quantity_aliases : list string := ["Quantity"; "quantity"; "Qty"].
Definition unit_price_aliases : list string := ["Unit Price"; "unit price"; "Price"].
Definition discount_aliases : list string := ["Discount %"; "Discount"; "discount"].
Definition date_aliases : list string := ["Order Date"; "OrderDate"; "order_date"].

(** [(row['A'] || ... || '').toString().trim()] *)
Definition text_field (r : row) (aliases : list string) : string :=
  Str.trim (js_to_string (resolve_or r aliases (CStr ""))).

(** [let quantity = 0; if (quantityValue) quantity = parseInt(
    quantityValue.toString().replace(/[^\d-]/g, '')) || 0;] *)
Definition clean_quantity (r : row) : Z :=
  let v := resolve_or r quantity_aliases (CNum 0 0) in
  if truthy v then Num.int_or_zero (Str.keep_only Str.is_digit_or_minus (js_to_string v))
  else 0.

Definition clean_unit_price_text (s : string) : string :=
  Str.trim (Str.remove_all "," (Str.remove_any ["£"; "$"; "€"] s)).

(** [unitPrice = parseFloat(cleanPrice) || 0] when the cell is truthy. *)
Definition clean_unit_price (r : row) : Num.number :=
  let v := resolve_or r unit_price_aliases (CNum 0 0) in
  if truthy v then Num.float_or_zero (clean_unit_price_text (js_to_string v))
  else Num.Finite 0 0.

(** [discount = parseFloat(discountValue.toString().replace(/%/g, '')) || 0]. *)
Definition clean_discount (r : row) : Num.number :=
  let v := resolve_or r discount_aliases (CNum 0 0) in
  if truthy v then Num.float_or_zero (Str.remove_all "%" (js_to_string v))
  else Num.Finite 0 0.

(** [dateValue = row['Order Date'] || row['OrderDate'] || row['order_date']
    || row['Date']; if (dateValue) parsedDate = parseExcelDate(dateValue)]. *)
Definition clean_date (r : row) : option Z :=
  match resolve r date_aliases (r !! "Date") with
  | Some v => if truthy v then parseExcelDate (cell_to_jsval v) else None
  | None => None
  end.

Record params := {
  p_order_ref : string;
  p_order_date : option Z;
  p_customer_name : string;
  p_city : string;
  p_country : string;
  p_title : string;
  p_isbn13 : string;
  p_quantity : Z;
  p_unit_price : Num.number;
  p_discount : Num.number;
  p_publisher : string;
  p_format : string }.

Definition normalize (r : row) : params :=
  {| p_order_ref := text_field r order_ref_aliases;
     p_order_date := clean_date r;
     p_customer_name := text_field r customer_name_aliases;
     p_city := text_field r city_aliases;
     p_country := text_field r country_aliases;
     p_title := text_field r title_aliases;
     p_isbn13 := Str.trim (Str.remove_all "-"
                   (js_to_string (resolve_or r isbn13_aliases (CStr ""))));
     p_quantity := clean_quantity r;
     p_unit_price := clean_unit_price r;
     p_discount := clean_discount r;
     p_publisher := text_field r publisher_aliases;
     p_format := text_field r format_aliases |}.

(** A stored [gazelle_sales] row (without [id] and [upload_date]). *)
Record record := {
  order_ref : string;
  order_date : option Z;     (* DATE, as a day number *)
  customer_name : string;
  city : string;
  country : string;
  title : string;
  isbn13 : string;
  quantity : Z;
  unit_price : Z;            (* DECIMAL(10,2), in hundredths *)
  discount : Z;              (* DECIMAL(5,2), in hundredths *)
  publisher : string;
  format : string }.

(** The table in insertion order.  As created by [initGazelleTable] it
    has no constraint besides its serial primary key. *)
Abbreviation table := (list record).

Definition date_column (t : option Z) : option Z :=
  match t with
  | Some t => Some (t / JSDate.ms_per_day)
  | None => None
  end.

(** [INSERT INTO gazelle_sales (...) VALUES ($1, ..., $12) RETURNING id]. *)
Definition insert (p : params) (db : table) : table + PG.error :=
  let? order_ref' := PG.varchar 100 (p_order_ref p) in
  let? customer_name' := PG.varchar 500 (p_customer_name p) in
  let? city' := PG.varchar 200 (p_city p) in
  let? country' := PG.varchar 100 (p_country p) in
  let? title' := PG.varchar 500 (p_title p) in
  let? isbn13' := PG.varchar 50 (p_isbn13 p) in
  let? quantity' := PG.integer (p_quantity p) in
  let? unit_price' := PG.decimal 10 2 (p_unit_price p) in
  let? discount' := PG.decimal 5 2 (p_discount p) in
  let? publisher' := PG.varchar 500 (p_publisher p) in
  let? format' := PG.varchar 100 (p_format p) in
  inl (db ++ [{| order_ref := order_ref'; order_date := date_column (p_order_date p);
                 customer_name := customer_name'; city := city'; country := country';
                 title := title'; isbn13 := isbn13'; quantity := quantity';
                 unit_price := unit_price'; discount := discount';
                 publisher := publisher'; format := format' |}]).

Record counters := {
  newRecords : nat;
  updatedRecords : nat;
  errors : nat;
  skippedRows : nat;
  errorDetails : list (nat * string) }.   (* row number, error message *)

Definition zero : counters :=
  {| newRecords := 0; updatedRecords := 0; errors := 0; skippedRows := 0; errorDetails := [] |}.

Definition incr_new (c : counters) : counters :=
  {| newRecords := S (newRecords c); updatedRecords := updatedRecords c;
     errors := errors c; skippedRows := skippedRows c; errorDetails := errorDetails c |}.
Definition incr_updated (c : counters) : counters :=
  {| newRecords := newRecords c; updatedRecords := S (updatedRecords c);
     errors := errors c; skippedRows := skippedRows c; errorDetails := errorDetails c |}.
Definition incr_skipped (c : counters) : counters :=
  {| newRecords := newRecords c; updatedRecords := updatedRecords c;
     errors := errors c; skippedRows := S (skippedRows c); errorDetails := errorDetails c |}.
Definition record_error (i : nat) (msg : string) (c : counters) : counters :=
  {| newRecords := newRecords c; updatedRecords := updatedRecords c;
     errors := S (errors c); skippedRows := skippedRows c;
     errorDetails := errorDetails c ++ [(S i, msg)] |}.

(** Iteration [i] of the loop, with its [try { ... } catch (err) { ... }]. *)
Definition step (i : nat) (st : table * counters) (r : row) : table * counters :=
  let '(db, c) := st in
  let p := normalize r in
  if String.eqb (p_order_ref p) "" || String.eqb (p_customer_name p) ""
  then (db, incr_skipped c)
  else
    match insert p db with
    | inl db' => (db', incr_new c)
    | inr err =>
        if Str.includes (PG.message err) "duplicate" || String.eqb (PG.code err) "23505"
        then (db, incr_updated c)
        else (db, record_error i (PG.message err) c)
    end.

Fixpoint ingest_from (i : nat) (data : list row) (st : table * counters) : table * counters :=
  match data with
  | [] => st
  | r :: rest => ingest_from (S i) rest (step i st r)
  end.

Definition ingest (data : list row) (db : table) : table * counters :=
  ingest_from 0 data (db, zero).

End Gazelle.

(* ------------------------------------------------------------------ *)
(** ** The two upload handlers *)

Module Upload.

(** What [xlsx.readFile] makes of an uploaded file: its sheets, each as
    the rows [sheet_to_json] returns for it, or an unreadable file. *)
Inductive workbook :=
| Workbook (sheets : list (list row))
| Unreadable.

(** Uploaded files on disk (multer's [uploads/] directory) and the two
    tables. *)
Record world := {
  files : gmap string workbook;
  booksonix_records : Booksonix.store;
  gazelle_sales : Gazelle.table }.

Definition set_files (fs : gmap string workbook) (w : world) : world :=
  {| files := fs; booksonix_records := booksonix_records w; gazelle_sales := gazelle_sales w |}.
Definition set_booksonix (db : Booksonix.store) (w : world) : world :=
  {| files := files w; booksonix_records := db; gazelle_sales := gazelle_sales w |}.
Definition set_gazelle (db : Gazelle.table) (w : world) : world :=
  {| files := files w; booksonix_records := booksonix_records w; gazelle_sales := db |}.

(** Handler code: state passing over the world, with thrown errors
    (their message) on the right. *)
Definition M (A : Type) : Type := world -> (A + string) * world.

Definition ret {A} (x : A) : M A := fun w => (inl x, w).
Definition bind {A B} (m : M A) (k : A -> M B) : M B := fun w =>
  match m w with
  | (inl x, w') => k x w'
  | (inr e, w') => (inr e, w')
  end.

Notation "'let*' x := m 'in' k" := (bind m (fun x => k))
  (at level 200, x name, m at level 100, k at level 200).

Definition throw {A} (msg : string) : M A := fun w => (inr msg, w).

(** [try { body } catch (error) { handler }] *)
Definition try_catch {A} (body : M A) (handler : string -> M A) : M A := fun w =>
  match body w with
  | (inl x, w') => (inl x, w')
  | (inr e, w') => handler e w'
  end.

(** [xlsx.readFile(path)] *)
Definition read_file (path : string) : M (list (list row)) := fun w =>
  match files w !! path with
  | Some (Workbook sheets) => (inl sheets, w)
  | Some Unreadable => (inr "Unsupported file", w)
  | None => (inr "ENOENT: no such file or directory", w)
  end.

(** [sheet_to_json(workbook.Sheets[workbook.SheetNames[0]])]; with no
    sheet the argument is [undefined], for which [sheet_to_json] returns
    no rows. *)
Definition first_sheet (sheets : list (list row)) : M (list row) :=
  match sheets with
  | s :: _ => ret s
  | [] => ret []
  end.

(** [fs.unlinkSync(path)] *)
Definition unlink_sync (path : string) : M unit := fun w =>
  match files w !! path with
  | Some _ => (inl tt, set_files (delete path (files w)) w)
  | None => (inr "ENOENT: no such file or directory", w)
  end.

(** [fs.existsSync(path)] *)
Definition exists_sync (path : string) : M bool := fun w =>
  (inl (bool_decide (is_Some (files w !! path))), w).

Definition run_booksonix (clock : nat -> Z) (data : list row) : M Booksonix.counters := fun w =>
  let '(db, c) := Booksonix.ingest clock data (booksonix_records w) in
  (inl c, set_booksonix db w).

Definition run_gazelle (data : list row) : M Gazelle.counters := fun w =>
  let '(db, c) := Gazelle.ingest data (gazelle_sales w) in
  (inl c, set_gazelle db w).

Inductive response :=
| NoFile                                   (* 400 'No file uploaded' *)
| Failed (msg : string)                    (* 500 *)
| BooksonixDone (total newRecords duplicates errors : nat)
| GazelleDone (totalRows newRecords updatedRecords skippedRows errors : nat)
              (errorSample : list (nat * string)).

(** The catch block: [if (fs.existsSync(path)) fs.unlinkSync(path);]
    then the 500 response. *)
Definition cleanup_and_fail (path msg : string) : M response :=
  let* e := exists_sync path in
  let* _ := (if e then unlink_sync path else ret tt) in
  ret (Failed msg).

(** [app.post('/api/booksonix/upload', ...)]; [file] is [req.file.path],
    [clock i] the instant of the statement of row [i]. *)
Definition booksonix_upload (clock : nat -> Z) (file : option string) : M response :=
  match file with
  | None => ret NoFile
  | Some path =>
      try_catch
        (let* sheets := read_file path in
         let* data := first_sheet sheets in
         let* c := run_booksonix clock data in
         let* _ := unlink_sync path in
         ret (BooksonixDone (List.length data) (Booksonix.newRecords c)
                 (Booksonix.duplicates c) (Booksonix.errors c)))
        (cleanup_and_fail path)
  end.

(** [app.post('/api/gazelle/upload', ...)]. *)
Definition gazelle_upload (file : option string) : M response :=
  match file with
  | None => ret NoFile
  | Some path =>
      try_catch
        (let* sheets := read_file path in
         let* rawData := first_sheet sheets in
         let* c := run_gazelle rawData in
         let* _ := unlink_sync path in
         ret (GazelleDone (List.length rawData) (Gazelle.newRecords c)
                 (Gazelle.updatedRecords c) (Gazelle.skippedRows c)
                 (Gazelle.errors c) (firstn 5 (Gazelle.errorDetails c))))
        (cleanup_and_fail path)
  end.

End Upload.

(* ------------------------------------------------------------------ *)
(** ** The paged record listings *)

Module Paging.

(** A JavaScript number whose finite values are integers: [parseInt] and
    the arithmetic of the paging code only produce such numbers.  The
    sign of a zero is not kept: [-0] and [0] are both falsy and both
    print as ["0"]. *)
Inductive number :=
| Fin (z : Z)
| Inf (neg : bool)
| NaN.

(** The double nearest to the integer [z] (53-bit significand, ties to
    even); an infinity beyond the largest finite double. *)
Definition round (z : Z) : number :=
  let a := Z.abs z in
  let r := if a <? 2 ^ 53 then a
           else
             let e := Z.log2 a - 52 in
             let q := a / 2 ^ e in
             let rem := a mod 2 ^ e in
             let half := 2 ^ (e - 1) in
             let q' := if (half <? rem) || ((rem =? half) && Z.odd q) then q + 1 else q in
             q' * 2 ^ e in
  if 2 ^ 1024 <=? r then Inf (z <? 0) else Fin (if z <? 0 then - r else r).

Definition truthy (x : number) : bool :=
  match x with
  | Fin z => negb (z =? 0)
  | Inf _ => true
  | NaN => false
  end.

(** [x - b] for an integer [b]. *)
Definition sub (x : number) (b : Z) : number :=
  match x with
  | Fin a => round (a - b)
  | _ => x
  end.

(** [x * y]. *)
Definition mul (x y : number) : number :=
  match x, y with
  | NaN, _ => NaN
  | _, NaN => NaN
  | Fin a, Fin b => round (a * b)
  | Fin a, Inf n | Inf n, Fin a => if a =? 0 then NaN else Inf (xorb n (a <? 0))
  | Inf n, Inf m => Inf (xorb n m)
  end.

Definition fin_eqb (x : number) (a : Z) : bool :=
  match x with
  | Fin b => b =? a
  | _ => false
  end.

(** The number of decimal digits of a positive integer. *)
Definition dec_len (c : Z) : Z := Z.of_nat (List.length (Str.digits c)).

(** The digits [s] and exponent [m] of [Number::toString] for the
    positive double [a]: the largest [m] (the fewest digits) for which a
    multiple [s * 10^m] rounds to [a], and of those the one nearest to
    [a], the even [s] on a tie (V8's choice, the one ECMAScript
    recommends). *)
Fixpoint shortest_from (fuel : nat) (a m : Z) : Z * Z :=
  match fuel with
  | O => (a, 0)
  | S f =>
      let p := 10 ^ m in
      let s1 := a / p in
      let s2 := s1 + 1 in
      let ok1 := fin_eqb (round (s1 * p)) a in
      let ok2 := fin_eqb (round (s2 * p)) a in
      if ok1 && ok2 then
        let d1 := a - s1 * p in
        let d2 := s2 * p - a in
        if d1 <? d2 then (s1, m) else if d2 <? d1 then (s2, m)
        else if Z.even s1 then (s1, m) else (s2, m)
      else if ok1 then (s1, m)
      else if ok2 then (s2, m)
      else shortest_from f a (m - 1)
  end.

Definition shortest (a : Z) : Z * Z :=
  shortest_from (S (Z.to_nat (dec_len a))) a (dec_len a).

(** [Number::toString] (what [pg] sends for a number parameter):
    [s * 10^m] written out when it has at most 21 digits, otherwise
    [d.ddd e+n]. *)
Definition to_string (x : number) : string :=
  match x with
  | NaN => "NaN"
  | Inf false => "Infinity"
  | Inf true => "-Infinity"
  | Fin z =>
      if z =? 0 then "0" else
      let sign := if z <? 0 then "-" else "" in
      let '(s, m) := shortest (Z.abs z) in
      let c := s * 10 ^ m in
      let n := dec_len c in
      if n <=? 21 then String.append sign (string_of_list_ascii (Str.digits c))
      else
        let mant := match Str.digits s with
                    | d :: (_ :: _) as rest => d :: "."%char :: rest
                    | ds => ds
                    end in
        String.append sign (String.append (string_of_list_ascii mant)
                              (String.append "e+" (string_of_list_ascii (Str.digits (n - 1)))))
  end.

(** A hexadecimal digit's value. *)
Definition hex_digit (c : ascii) : option Z :=
  let n := Z.of_nat (nat_of_ascii c) in
  if (48 <=? n) && (n <=? 57) then Some (n - 48)
  else if (97 <=? n) && (n <=? 102) then Some (n - 87)
  else if (65 <=? n) && (n <=? 70) then Some (n - 55)
  else None.

Fixpoint take_hex (l : list ascii) : list Z :=
  match l with
  | c :: l' => match hex_digit c with Some d => d :: take_hex l' | None => [] end
  | [] => []
  end.

(** The decimal or hexadecimal digits at the head of [l], as a value;
    [None] when there are none. *)
Definition digits_at (hex : bool) (l : list ascii) : option Z :=
  if hex then
    match take_hex l with
    | [] => None
    | ds => Some (fold_left (fun a d => a * 16 + d) ds 0)
    end
  else
    match (Num.take_digits l).1 with
    | [] => None
    | ds => Some (Num.digits_value ds)
    end.

(** [parseInt(s)] without radix: white space, a sign, then a [0x]/[0X]
    prefix selects base 16, otherwise base 10; the integer the digits
    denote, rounded to a double.  [None] as the argument is [undefined]
    (which reads as the text "undefined"). *)
Definition parse_int_auto (q : option string) : number :=
  match q with
  | None => NaN
  | Some s =>
      let l := Str.drop_ws (list_ascii_of_string s) in
      let '(neg, l1) := Num.take_sign l in
      let v := match l1 with
               | c :: x :: l2 =>
                   if Ascii.eqb c "0" && (Ascii.eqb x "x" || Ascii.eqb x "X")
                   then digits_at true l2 else digits_at false l1
               | _ => digits_at false l1
               end in
      match v with
      | Some n => round (if neg then - n else n)
      | None => NaN
      end
  end.

(** [parseInt(q) || d]: NaN and 0 give [d]. *)
Definition int_or (q : option string) (d : Z) : number :=
  let v := parse_int_auto q in
  if truthy v then v else Fin d.

(** PostgreSQL's [int8in] on a parameter text: white space, an optional
    sign, decimal digits, white space.  (Newer servers also read [_]
    separators and [0x], [0o], [0b] prefixes; no text [to_string]
    produces has them.) *)
Definition int8_in (s : string) : Z + PG.error :=
  let l := Str.drop_ws (list_ascii_of_string s) in
  let '(neg, l1) := Num.take_sign l in
  let '(ds, rest) := Num.take_digits l1 in
  if (match ds with [] => true | _ => false end) || negb (forallb Str.is_ws rest)
  then inr {| PG.code := "22P02"; PG.message := "invalid input syntax for type bigint" |}
  else
    let v := if neg then - Num.digits_value ds else Num.digits_value ds in
    if (v <? - 2 ^ 63) || (2 ^ 63 <=? v)
    then inr {| PG.code := "22003"; PG.message := "value out of range for type bigint" |}
    else inl v.

(** [LIMIT $1 OFFSET $2] on the rows in [ORDER BY] order; the parameters
    arrive as texts, read as BIGINT. *)
Definition limit_offset {A} (limit offset : string) (rows : list A) : list A + PG.error :=
  let? l := int8_in limit in
  let? o := int8_in offset in
  if o <? 0
  then inr {| PG.code := "2201X"; PG.message := "OFFSET must not be negative" |}
  else if l <? 0
  then inr {| PG.code := "2201W"; PG.message := "LIMIT must not be negative" |}
  else inl (firstn (Z.to_nat l) (skipn (Z.to_nat o) rows)).

Inductive page_response (A : Type) :=
| Page (records : list A) (totalRecords : Z) (page limit : number)
| DatabaseError.                      (* 500 'Database error' *)

Arguments Page {A}.
Arguments DatabaseError {A}.

(** The body of [GET /api/booksonix/records] (default limit 500) and of
    [GET /api/gazelle/records] (default limit 999999): [rows] are the
    table's rows in the order of the query's [ORDER BY] (taken as the same
    order for every query). *)
Definition records {A} (default_limit : Z) (limit_q page_q : option string) (rows : list A)
    : page_response A :=
  let limit := int_or limit_q default_limit in
  let page := int_or page_q 1 in
  let offset := mul (sub page 1) limit in
  let totalRecords := Z.of_nat (List.length rows) in
  match limit_offset (to_string limit) (to_string offset) rows with
  | inl rs => Page rs totalRecords page limit
  | inr _ => DatabaseError
  end.

Definition booksonix_records {A} := @records A 500.
Definition gazelle_records {A} := @records A 999999.

End Paging.

(* ------------------------------------------------------------------ *)
(** ** JSON request bodies *)

Module Json.

(** A value of a request body parsed by [express.json()].  A number is
    the decimal [m * 10^(-e)] (see [number_to_string]).  An object lists
    its own properties in property order, each key once, as [JSON.parse]
    builds it; none of its values is a function.  A field of the body is
    an [option json], [None] being [undefined]. *)
#[warnings="-register-all"]
Inductive json :=
| JsNull
| JsBool (b : bool)
| JsNum (m : Z) (e : nat)
| JsStr (s : string)
| JsArr (xs : list json)
| JsObj (fs : list (string * json)).

Definition truthy (v : option json) : bool :=
  match v with
  | None | Some JsNull => false
  | Some (JsBool b) => b
  | Some (JsNum m _) => negb (m =? 0)
  | Some (JsStr s) => negb (String.eqb s "")
  | Some (JsArr _) | Some (JsObj _) => true
  end.

(** The own property [k] of an object. *)
Fixpoint field (k : string) (fs : list (string * json)) : option json :=
  match fs with
  | [] => None
  | (k', v) :: r => if String.eqb k' k then Some v else field k r
  end.

(** [Array.prototype.join(sep)] on the strings of the elements. *)
Fixpoint join (sep : string) (l : list string) : string :=
  match l with
  | [] => ""
  | [x] => x
  | x :: r => x ++ sep ++ join sep r
  end.

(** [String(v)], also the text of a template-literal substitution; an
    array joins its elements with commas, [null] elements as "".  An
    object is ["[object Object]"], unless it has an own [toString]
    property: that one is not callable, nor is the [valueOf] found next,
    and the conversion throws a [TypeError] ([None]). *)
Fixpoint to_string (v : json) : option string :=
  match v with
  | JsNull => Some "null"
  | JsBool true => Some "true"
  | JsBool false => Some "false"
  | JsNum m e => Some (number_to_string m e)
  | JsStr s => Some s
  | JsArr xs =>
      option_map (join ",")
        ((fix elems (xs : list json) : option (list string) :=
            match xs with
            | [] => Some []
            | JsNull :: r => option_map (cons "") (elems r)
            | x :: r =>
                match to_string x, elems r with
                | Some s, Some ss => Some (s :: ss)
                | _, _ => None
                end
            end) xs)
  | JsObj fs =>
      match field "toString" fs with
      | Some _ => None
      | None => Some "[object Object]"
      end
  end.

Definition hex4 (n : nat) : list ascii :=
  let hexc (d : nat) := ascii_of_nat (if (d <? 10)%nat then 48 + d else 87 + d) in
  ["0"%char; "0"%char; hexc (Nat.div n 16); hexc (Nat.modulo n 16)].

(** [JSON.stringify] of a string: double quotes around it; a double
    quote, a backslash, backspace, form feed, newline, carriage return
    and tab escaped by a backslash (the last five as b, f, n, r, t), the
    other control characters as [\u00xx]. *)
Definition quote (s : string) : string :=
  let bs := ascii_of_nat 92 in
  let dq := ascii_of_nat 34 in
  let esc (c : ascii) : list ascii :=
    let n := nat_of_ascii c in
    if (n =? 34)%nat then [bs; dq]
    else if (n =? 92)%nat then [bs; bs]
    else if (n =? 8)%nat then [bs; "b"%char]
    else if (n =? 12)%nat then [bs; "f"%char]
    else if (n =? 10)%nat then [bs; "n"%char]
    else if (n =? 13)%nat then [bs; "r"%char]
    else if (n =? 9)%nat then [bs; "t"%char]
    else if (n <? 32)%nat then bs :: "u"%char :: hex4 n
    else [c] in
  string_of_list_ascii ([dq] ++ flat_map esc (list_ascii_of_string s) ++ [dq]).

(** [JSON.stringify(v)]. *)
Fixpoint stringify (v : json) : string :=
  match v with
  | JsNull => "null"
  | JsBool true => "true"
  | JsBool false => "false"
  | JsNum m e => number_to_string m e
  | JsStr s => quote s
  | JsArr xs =>
      "[" ++ join "," ((fix elems (xs : list json) : list string :=
                          match xs with
                          | [] => []
                          | x :: r => stringify x :: elems r
                          end) xs) ++ "]"
  | JsObj fs =>
      "{" ++ join "," ((fix members (fs : list (string * json)) : list string :=
                          match fs with
                          | [] => []
                          | (k, x) :: r => (quote k ++ ":" ++ stringify x)%string :: members r
                          end) fs) ++ "}"
  end.

(** [pg]'s [escapeElement]: double quotes around the text, with
    backslash and double quote escaped by a backslash. *)
Definition escape_element (s : string) : string :=
  let bs := ascii_of_nat 92 in
  let dq := ascii_of_nat 34 in
  string_of_list_ascii
    ([dq] ++ flat_map (fun c => if Ascii.eqb c bs || Ascii.eqb c dq then [bs; c] else [c])
                      (list_ascii_of_string s) ++ [dq]).

(** [pg]'s [arrayString], element by element: [null] is [NULL], a nested
    array its own literal [{...}], an object its [JSON.stringify], a
    primitive its [toString()], each of the last two escaped. *)
Fixpoint array_element (v : json) : string :=
  match v with
  | JsNull => "NULL"
  | JsArr xs =>
      "{" ++ join "," ((fix elems (xs : list json) : list string :=
                          match xs with
                          | [] => []
                          | x :: r => array_element x :: elems r
                          end) xs) ++ "}"
  | JsObj fs => escape_element (stringify (JsObj fs))
  | JsBool true => escape_element "true"
  | JsBool false => escape_element "false"
  | JsNum m e => escape_element (number_to_string m e)
  | JsStr s => escape_element s
  end.

(** [pg]'s [prepareValue] for a query parameter: [undefined] and [null]
    are SQL NULL ([None]); an array becomes an array literal; an object
    its [JSON.stringify]; a primitive is sent as its [toString()]. *)
Definition pg_param (v : option json) : option string :=
  match v with
  | None | Some JsNull => None
  | Some (JsArr xs) => Some (array_element (JsArr xs))
  | Some (JsObj fs) => Some (stringify (JsObj fs))
  | Some (JsBool true) => Some "true"
  | Some (JsBool false) => Some "false"
  | Some (JsNum m e) => Some (number_to_string m e)
  | Some (JsStr s) => Some s
  end.

(** The length of a string in UTF-16 code units: one per character, two
    for a character of four UTF-8 bytes. *)
Definition utf16_length (s : string) : nat :=
  fold_left (fun n c => if PG.is_cont c then n
                        else if (240 <=? nat_of_ascii c)%nat then S (S n) else S n)
    (list_ascii_of_string s) 0%nat.

(** The non-decimal literal [0x..], [0o..] or [0b..] of [StringToNumber]:
    the radix and the digits. *)
Definition radix_prefix (l : list ascii) : option (Z * list ascii) :=
  match l with
  | c :: x :: r =>
      if Ascii.eqb c "0" then
        if Ascii.eqb x "x" || Ascii.eqb x "X" then Some (16, r)
        else if Ascii.eqb x "o" || Ascii.eqb x "O" then Some (8, r)
        else if Ascii.eqb x "b" || Ascii.eqb x "B" then Some (2, r)
        else None
      else None
  | _ => None
  end.

(** An unsigned decimal literal filling [l]: [digits [. digits]] or
    [. digits], then an optional exponent; the value [m * 10^k]. *)
Definition decimal_literal (l : list ascii) : option (Z * Z) :=
  let '(ip, l2) := Num.take_digits l in
  let '(fp, l3) :=
    match l2 with
    | c :: r => if Ascii.eqb c "." then Num.take_digits r else ([], l2)
    | [] => ([], [])
    end in
  match ip ++ fp with
  | [] => None
  | ds =>
      let m := Num.digits_value ds in
      let k0 := - Z.of_nat (List.length fp) in
      match l3 with
      | [] => Some (m, k0)
      | c :: r =>
          if Ascii.eqb c "e" || Ascii.eqb c "E" then
            let '(neg, r1) := Num.take_sign r in
            let '(es, r2) := Num.take_digits r1 in
            match es, r2 with
            | _ :: _, [] =>
                let x := Num.digits_value es in
                Some (m, k0 + if neg then - x else x)
            | _, _ => None
            end
          else None
      end
  end.

(** [StringToNumber(s) > 0]: after white space, an empty text is 0, a
    non-decimal literal is positive when a digit is not 0, [Infinity] and
    a decimal literal take their sign, a decimal at most [2^-1075] rounds
    to 0, anything else is NaN. *)
Definition str_positive (s : string) : bool :=
  let l := list_ascii_of_string (Str.trim s) in
  match radix_prefix l with
  | Some (radix, ds) =>
      match ds with
      | [] => false
      | _ =>
          let vs := map Paging.hex_digit ds in
          forallb (fun v => match v with Some d => d <? radix | None => false end) vs
          && existsb (fun v => match v with Some d => negb (d =? 0) | None => false end) vs
      end
  | None =>
      let '(neg, l1) := Num.take_sign l in
      if decide (l1 = list_ascii_of_string "Infinity") then negb neg
      else
        match decimal_literal l1 with
        | Some (m, k) =>
            negb neg && (0 <? m) && ((0 <=? k) || (10 ^ (- k) <? m * 2 ^ 1075))
        | None => false
        end
  end.

(** [v > 0] for a value [v] ([None] is [undefined]): [ToNumber] of [v]
    compared with 0; an array is compared through its [String], an
    object through ["[object Object]"] (NaN), or the conversion throws
    ([None]) as in [to_string]. *)
Definition gt_zero (v : option json) : option bool :=
  match v with
  | None | Some JsNull => Some false
  | Some (JsBool b) => Some b
  | Some (JsNum m _) => Some (0 <? m)
  | Some (JsStr s) => Some (str_positive s)
  | Some (JsArr xs) => option_map str_positive (to_string (JsArr xs))
  | Some (JsObj fs) =>
      match field "toString" fs with
      | Some _ => None
      | None => Some false
      end
  end.

(** [v.length] of a truthy value. *)
Definition length_of (v : json) : option json :=
  match v with
  | JsStr s => Some (JsNum (Z.of_nat (utf16_length s)) 0)
  | JsArr xs => Some (JsNum (Z.of_nat (List.length xs)) 0)
  | JsObj fs => field "length" fs
  | _ => None
  end.

End Json.

(* ------------------------------------------------------------------ *)
(** ** User management: [POST], [PUT] and [DELETE /api/users] *)

Module Users.
Import Json.

(** A row of [users]; [created_at] and [last_login] are left out, the
    handlers below neither read nor write them. *)
Record user := {
  username : string;             (* VARCHAR(100) UNIQUE NOT NULL *)
  email : string;                (* VARCHAR(255) UNIQUE NOT NULL *)
  password : string;             (* VARCHAR(255) NOT NULL *)
  role : option string           (* VARCHAR(50) DEFAULT 'editor' *)
}.

(** The table, keyed by [id], and the next value of its [SERIAL]
    sequence. *)
Record table := {
  rows : gmap Z user;
  next_id : Z
}.

(** The fields the handlers destructure from [req.body]. *)
Record body := {
  b_username : option json;
  b_email : option json;
  b_password : option json;
  b_role : option json
}.

Inductive response :=
| Created (id : Z)                  (* { success: true, id } *)
| Success                           (* { success: true } *)
| BadRequest (msg : string)         (* 400 *)
| NotFound                          (* 404 'User not found' *)
| DatabaseError.                    (* 500 'Database error' *)

Definition is_admin (u : user) : bool :=
  match role u with
  | Some r => String.eqb r "admin"
  | None => false
  end.

(** A nullable text parameter assigned to a [VARCHAR(n)] column. *)
Definition varchar_opt (n : nat) (v : option string) : option string + PG.error :=
  match v with
  | Some s => let? s := PG.varchar n s in inl (Some s)
  | None => inl None
  end.

Definition not_null (column : string) (v : option string) : string + PG.error :=
  match v with
  | Some s => inl s
  | None => inr {| PG.code := "23502";
                   PG.message := "null value in column " ++ PG.dquote ++ column ++ PG.dquote
                                 ++ " of relation " ++ PG.dquote ++ "users" ++ PG.dquote
                                 ++ " violates not-null constraint" |}
  end.

(** Some other row than [k] holds the same username or email. *)
Definition conflicts (k : Z) (u : user) (db : gmap Z user) : bool :=
  existsb (fun '(j, v) => negb (j =? k) && (String.eqb (username v) (username u)
                                          || String.eqb (email v) (email u)))
          (map_to_list db).

Definition unique_violation : PG.error :=
  {| PG.code := "23505"; PG.message := "duplicate key value violates unique constraint" |}.

(** Writing the row [k] with the given column values: the assignment
    casts in column order, the NOT NULL checks, then the unique
    indexes ([id], [username], [email]; [fresh] is an INSERT, which also
    collides with an existing [id]). *)
Definition write_row (fresh : bool) (k : Z) (u e p r : option string) (db : gmap Z user)
    : gmap Z user + PG.error :=
  let? u := varchar_opt 100 u in
  let? e := varchar_opt 255 e in
  let? p := varchar_opt 255 p in
  let? r := varchar_opt 50 r in
  let? u := not_null "username" u in
  let? e := not_null "email" e in
  let? p := not_null "password" p in
  let row := {| username := u; email := e; password := p; role := r |} in
  if (fresh && bool_decide (is_Some (db !! k))) || conflicts k row db
  then inr unique_violation
  else inl (<[k := row]> db).

Definition unique_or_500 (e : PG.error) : response :=
  if String.eqb (PG.code e) "23505"
  then BadRequest "Username or email already exists"
  else DatabaseError.

Section Handlers.

(** [bcrypt.hash(password, 10)] with the salt drawn for this request. *)
Variable hash : string -> string.

(** PostgreSQL's conversion of a text parameter to [INTEGER] (the [:id]
    of the URL compared with [id]); [None] is its error. *)
Variable int4_in : string -> option Z.

(** [POST /api/users].  [bcrypt.hash] rejects a password that is not a
    string.  The [INSERT] draws its [id] from the sequence before the
    row is checked, so a rejected row still advances it. *)
Definition post_user (b : body) (t : table) : response * table :=
  if negb (truthy (b_username b)) || negb (truthy (b_email b)) || negb (truthy (b_password b))
  then (BadRequest "Username, email, and password are required", t)
  else match b_password b with
       | Some (JsStr pw) =>
           let k := next_id t in
           let role' := if truthy (b_role b) then pg_param (b_role b) else Some "editor" in
           match write_row true k (pg_param (b_username b)) (pg_param (b_email b))
                   (Some (hash pw)) role' (rows t) with
           | inl db => (Created k, {| rows := db; next_id := k + 1 |})
           | inr e => (unique_or_500 e, {| rows := rows t; next_id := k + 1 |})
           end
       | _ => (DatabaseError, t)
       end.

(** [PUT /api/users/:id]:
    [UPDATE users SET username = $1, email = $2, role = $3
     [, password = $4] WHERE id = $n].  The password is hashed first
    when it is truthy; the [id] parameter is converted when the
    statement is bound; an update matching no row reports 404. *)
Definition put_user (id : string) (b : body) (db : gmap Z user) : response * gmap Z user :=
  let hashed := if truthy (b_password b)
                then match b_password b with
                     | Some (JsStr pw) => Some (Some (hash pw))
                     | _ => None
                     end
                else Some None in
  match hashed with
  | None => (DatabaseError, db)
  | Some new_password =>
      match int4_in id with
      | None => (DatabaseError, db)
      | Some k =>
          match db !! k with
          | None => (NotFound, db)
          | Some old =>
              let p := match new_password with
                       | Some h => Some h
                       | None => Some (password old)
                       end in
              match write_row false k (pg_param (b_username b)) (pg_param (b_email b)) p
                      (pg_param (b_role b)) db with
              | inl db' => (Success, db')
              | inr e => (unique_or_500 e, db)
              end
          end
      end
  end.

(** [SELECT COUNT( * ) FROM users WHERE role = 'admin' AND id != $1], as
    the text [pg] returns for a [bigint]. *)
Definition admin_count_except (k : Z) (db : gmap Z user) : string :=
  PG.nat_text (List.length (List.filter (fun '(j, v) => is_admin v && negb (j =? k))
                                        (map_to_list db))).

(** [DELETE /api/users/:id]. *)
Definition delete_user (id : string) (db : gmap Z user) : response * gmap Z user :=
  match int4_in id with
  | None => (DatabaseError, db)
  | Some k =>
      match db !! k with
      | None => (NotFound, db)
      | Some u =>
          if is_admin u && String.eqb (admin_count_except k db) "0"
          then (BadRequest "Cannot delete the last admin user", db)
          else (Success, delete k db)
      end
  end.

End Handlers.

End Users.

(* ------------------------------------------------------------------ *)
(** ** [POST /api/generate-report]: the query builder *)

Module Report.
Import Json.

Definition base_query : string :=
"
            SELECT DISTINCT
                customer_name,
                city,
                country,
                COUNT(DISTINCT order_ref) as total_orders,
                SUM(quantity) as total_quantity,
                MAX(order_date) as last_order
            FROM gazelle_sales
            WHERE 1=1
        ".

Record body := {
  publisher : option json;
  startDate : option json;
  endDate : option json;
  titles : option json
}.

(** The [$n] of a template literal [`$${n}`]. *)
Definition placeholder (n : Z) : string := "$" ++ number_to_string n 0.

(** The query text and its parameters, built as the handler does; the
    error is the [TypeError] of [titles.map] on a non-empty string. *)
Definition build (b : body) : (string * list json) + string :=
  let '(query, params, paramIndex) := (base_query, @nil json, 1) in
  let '(query, params, paramIndex) :=
    if truthy (startDate b)
    then ((query ++ " AND order_date >= " ++ placeholder paramIndex)%string,
          params ++ option_list (startDate b), paramIndex + 1)
    else (query, params, paramIndex) in
  let '(query, params, paramIndex) :=
    if truthy (endDate b)
    then ((query ++ " AND order_date <= " ++ placeholder paramIndex)%string,
          params ++ option_list (endDate b), paramIndex + 1)
    else (query, params, paramIndex) in
  let titled :=
    match titles b with
    | Some t =>
        if truthy (Some t) then
          match gt_zero (length_of t) with
          | None => inr "Cannot convert object to primitive value"
          | Some false => inl (query, params, paramIndex)
          | Some true =>
              match t with
              | JsArr xs =>
                  let titlePlaceholders :=
                    join "," (imap (fun i _ => placeholder (paramIndex + Z.of_nat i)) xs) in
                  inl ((query ++ " AND title IN (" ++ titlePlaceholders ++ ")")%string,
                       params ++ xs, paramIndex + Z.of_nat (List.length xs))
              | _ => inr "titles.map is not a function"
              end
          end
        else inl (query, params, paramIndex)
    | None => inl (query, params, paramIndex)
    end in
  match titled with
  | inr msg => inr msg
  | inl (query, params, paramIndex) =>
      let published :=
        if truthy (publisher b)
        then match publisher b with
             | Some p =>
                 match to_string p with
                 | Some ps =>
                     inl ((query ++ " AND LOWER(publisher) LIKE LOWER(" ++ placeholder paramIndex ++ ")")%string,
                          params ++ [JsStr ("%" ++ ps ++ "%")%string], paramIndex + 1)
                 | None => inr "Cannot convert object to primitive value"
                 end
             | None => inl (query, params, paramIndex)
             end
        else inl (query, params, paramIndex) in
      match published with
      | inr msg => inr msg
      | inl (query, params, paramIndex) =>
          inl ((query ++ " GROUP BY customer_name, city, country ORDER BY country, city, customer_name")%string,
               params)
      end
  end.

Inductive response (A : Type) :=
| Report (data : list A) (totalCustomers : Z)
         (publisher startDate endDate titles : option json)
| Failed (msg : string).            (* 500 'Failed to generate report: ' + message *)

Arguments Report {A}.
Arguments Failed {A}.

(** The handler, for a database [exec] answering a query text and its
    parameters with rows or an error. *)
Definition generate_report {A} (exec : string -> list json -> list A + PG.error) (b : body)
    : response A :=
  match build b with
  | inr msg => Failed ("Failed to generate report: " ++ msg)
  | inl (query, params) =>
      match exec query params with
      | inl rs => Report rs (Z.of_nat (List.length rs)) (publisher b) (startDate b) (endDate b) (titles b)
      | inr e => Failed ("Failed to generate report: " ++ PG.message e)
      end
  end.

(** The parameter references of a statement: each [$] followed by
    decimal digits, with the value of the digits. *)
Fixpoint param_refs (l : list ascii) : list Z :=
  match l with
  | [] => []
  | c :: l' =>
      if Ascii.eqb c "$"
      then match (Num.take_digits l').1 with
           | [] => param_refs l'
           | ds => Num.digits_value ds :: param_refs l'
           end
      else param_refs l'
  end.

End Report.

(* ------------------------------------------------------------------ *)
(** ** [GET /api/export-all]: the CSV export of [gazelle_sales] *)

Module CsvExport.
Import Gazelle.

Definition newline : string := String (ascii_of_nat 10) EmptyString.

Definition headers : list string :=
  ["Order Ref"; "Order Date"; "Customer Name"; "City"; "Country"; "Title"; "ISBN-13";
   "Quantity"; "Unit Price"; "Discount %"; "Publisher"; "Format"].

(** An entry of [rowData]: a template literal that puts double quotes
    around a text whose double quotes are doubled, or a value joined as
    it is. *)
Inductive field :=
| Quoted (s : string)
| Raw (s : string).

(** The [replace] of the quoted entries: every double quote doubled. *)
Definition double_quotes (s : string) : string :=
  string_of_list_ascii
    (flat_map (fun c => if Ascii.eqb c (ascii_of_nat 34) then [c; c] else [c])
              (list_ascii_of_string s)).

Definition render (f : field) : string :=
  match f with
  | Quoted s => PG.dquote ++ double_quotes s ++ PG.dquote
  | Raw s => s
  end.

Definition pad2 (n : Z) : string :=
  if n <? 10 then "0" ++ number_to_string n 0 else number_to_string n 0.

(** [new Date(d).toLocaleDateString('en-GB')] of a [DATE] column, which
    [pg] reads as local midnight: [dd/mm/yyyy] (years before 1000 are
    not padded in this model). *)
Definition date_text (day : Z) : string :=
  let '(y, m, d) := JSDate.civil_from_days day in
  pad2 d ++ "/" ++ pad2 m ++ "/" ++ number_to_string y 0.

(** The text [pg] returns for a [DECIMAL(p,2)] value given in
    hundredths: sign, integer part, a dot and two fractional digits. *)
Definition numeric_text (v : Z) : string :=
  (if v <? 0 then "-" else "") ++ number_to_string (Z.abs v / 100) 0 ++ "." ++ pad2 (Z.abs v mod 100).

(** [rowData] of a stored row.  The [|| ''] and [|| 0] fallbacks change
    nothing here: [0 || 0] is 0, [''] is [''], and the numeric columns
    arrive as non-empty text. *)
Definition row_data (r : record) : list field :=
  [Raw (order_ref r);
   Raw (match order_date r with Some d => date_text d | None => "" end);
   Quoted (customer_name r);
   Quoted (city r);
   Raw (country r);
   Quoted (title r);
   Raw (isbn13 r);
   Raw (number_to_string (quantity r) 0);
   Raw (numeric_text (unit_price r));
   Raw (numeric_text (discount r));
   Quoted (publisher r);
   Raw (format r)].

Definition line (r : record) : string := Json.join "," (map render (row_data r)) ++ newline.

(** [csvContent] for the rows in the order of the query's [ORDER BY]. *)
Definition csv (rows : list record) : string :=
  fold_left (fun acc r => (acc ++ line r)%string) rows (Json.join "," headers ++ newline)%string.

Inductive response :=
| NoData                       (* 404 'No data to export' *)
| Csv (text : string).         (* the attachment, text/csv *)

Definition export_all (rows : list record) : response :=
  match rows with
  | [] => NoData
  | _ => Csv (csv rows)
  end.

End CsvExport.



(* ================================================================== *)
(** * Properties *)

(** The reading the spec gives to the column resolver: the value of the
    first alias that is present in the row, whatever that value is. *)
Fixpoint spec_first_present (r : row) (aliases : list string) (last : option cell) : option cell :=
  match aliases with
  | [] => last
  | a :: rest =>
      match r !! a with
      | Some v => Some v
      | None => spec_first_present r rest last
      end
  end.

Module DateFacts.

(** C1: the DD/MM/YYYY string "01/02/2025" reaches the generic
    [new Date(trimmedValue)] first, which reads it month first: the
    result is 2 January 2025, not the day-first reading 1 February 2025
    of the DD/MM/YYYY branch. *)
Theorem parseExcelDate_01_02_2025 :
  parseExcelDate (JStr "01/02/2025") = dmy_reading 2 1 2025
  /\ option_map JSDate.date_of (parseExcelDate (JStr "01/02/2025")) = Some (2025, 1, 2)
  /\ parseExcelDate (JStr "01/02/2025") <> dmy_reading 1 2 2025.
Proof. vm_compute. split; [reflexivity | split; [reflexivity | discriminate]]. Qed.

(** The day-first branch is only reached when the generic parse fails,
    e.g. for a day above 12. *)
Example parseExcelDate_13_02_2025 :
  option_map JSDate.date_of (parseExcelDate (JStr "13/02/2025")) = Some (2025, 2, 13).
Proof. vm_compute. reflexivity. Qed.

(** C5, as stated: every serial is decoded to 1970-01-01 plus
    [serial - 25569] days.  Serial 0 is not (it is falsy). *)
Lemma serial_zero_is_null :
  ~ (forall n : Z, parseExcelDate (JNum n 0) = Some ((n - 25569) * JSDate.ms_per_day)).
Proof. intros H. specialize (H 0). vm_compute in H. discriminate H. Qed.

(** C5, amended: an integer serial [n] decodes to the instant
    [(n - 25569) * 86400000] ms, i.e. the date [n - 25569] days after
    1970-01-01, unless [n] is 0 (falsy) or the instant is beyond the
    Date range ([|n - 25569| > 10^8] days), where the result is null. *)
Theorem parseExcelDate_serial (n : Z) :
  parseExcelDate (JNum n 0) =
    (if (n =? 0) || (100000000 <? Z.abs (n - 25569)) then None
     else Some ((n - 25569) * JSDate.ms_per_day))
  /\ JSDate.date_of ((n - 25569) * JSDate.ms_per_day) = JSDate.civil_from_days (n - 25569).
Proof.
  split.
  - unfold parseExcelDate, js_truthy, JSDate.from_ms_ratio.
    destruct (Z.eqb_spec n 0) as [Hn | Hn]; [reflexivity |].
    simpl negb. cbn iota.
    change (10 ^ Z.of_nat 0) with 1.
    rewrite Z.mul_1_r, Z.quot_1_r, Z.mul_1_r.
    unfold JSDate.ms_per_day.
    replace ((n - 25569) * 86400 * 1000) with ((n - 25569) * 86400000) by lia.
    rewrite Z.abs_mul. change (Z.abs 86400000) with 86400000.
    destruct (Z.ltb_spec 100000000 (Z.abs (n - 25569)));
      destruct (Z.leb_spec (Z.abs (n - 25569) * 86400000) 8640000000000000);
      simpl; try reflexivity; lia.
  - unfold JSDate.date_of. rewrite Z.div_mul by (unfold JSDate.ms_per_day; lia).
    reflexivity.
Qed.

Example serial_45000 : option_map JSDate.date_of (parseExcelDate (JNum 45000 0)) = Some (2023, 3, 15).
Proof. vm_compute. reflexivity. Qed.

End DateFacts.

Module ResolveFacts.

(** C8, as stated: the resolver returns the first alias that is present.
    A present but empty cell is skipped: with [SKU] = "" and [sku] = "X1"
    the Booksonix SKU chain yields "X1", not "". *)
Lemma present_empty_cell_skipped :
  let r : row := <["SKU" := CStr ""]> (<["sku" := CStr "X1"]> ∅) in
  resolve r Booksonix.sku_aliases (Some (CStr "")) = Some (CStr "X1")
  /\ spec_first_present r Booksonix.sku_aliases (Some (CStr "")) = Some (CStr "").
Proof. vm_compute. split; reflexivity. Qed.

Definition truthy_at (r : row) (a : string) : bool :=
  match r !! a with
  | Some v => truthy v
  | None => false
  end.

(** C8, amended: the resolver tries the aliases in declared order with
    exact label lookup and returns the cell of the first alias whose
    cell is truthy (present and not "", 0 or false); when there is none
    it returns the chain's last operand.  It is a total function of the
    row and the alias list. *)
Theorem resolve_first_truthy (r : row) (aliases : list string) (last : option cell) :
  resolve r aliases last =
    match List.find (truthy_at r) aliases with
    | Some a => r !! a
    | None => last
    end
  /\ (forall a v, List.find (truthy_at r) aliases = Some a -> r !! a = Some v -> truthy v = true).
Proof.
  split.
  - induction aliases as [| a rest IH]; simpl; [reflexivity |].
    unfold truthy_at at 1. destruct (r !! a) as [v |] eqn:Ha.
    + destruct (truthy v); [by rewrite Ha | exact IH].
    + exact IH.
  - intros a v Hf Hv. apply List.find_some in Hf as [_ Ht].
    unfold truthy_at in Ht. rewrite Hv in Ht. exact Ht.
Qed.

End ResolveFacts.

Module UploadFacts.
Import Upload.

Lemma cleanup_removes (path msg : string) (w : world) :
  files (cleanup_and_fail path msg w).2 !! path = None.
Proof.
  unfold cleanup_and_fail, bind, exists_sync, unlink_sync, ret.
  destruct (files w !! path) as [f |] eqn:E.
  - rewrite bool_decide_eq_true_2 by eauto. rewrite E.
    simpl. apply lookup_delete_eq.
  - rewrite bool_decide_eq_false_2 by (intros [? H]; discriminate H).
    simpl. exact E.
Qed.

(** The shape shared by the two handlers: read, take the first sheet,
    process its rows, unlink, answer; any throw goes to the catch block. *)
Lemma handler_removes_file {C} (run : list row -> M C) (mk : list row -> C -> response)
    (path : string) (w : world) :
  (forall d w, files (run d w).2 = files w) ->
  files (try_catch
           (let* sheets := read_file path in
            let* data := first_sheet sheets in
            let* c := run data in
            let* _ := unlink_sync path in
            ret (mk data c))
           (cleanup_and_fail path) w).2 !! path = None.
Proof.
  intros Hrun. unfold try_catch, bind at 1, read_file.
  destruct (files w !! path) as [[sheets |] |] eqn:E;
    try apply cleanup_removes.
  unfold bind at 1.
  assert (Hf : exists d, first_sheet sheets = ret d) by (destruct sheets; eexists; reflexivity).
  destruct Hf as [s Hs]. rewrite Hs. unfold ret at 1.
  unfold bind at 1. specialize (Hrun s w).
  destruct (run s w) as [[c | e] w1] eqn:R; simpl in Hrun |- *;
    [| apply cleanup_removes].
  unfold bind, unlink_sync. rewrite Hrun, E. simpl. apply lookup_delete_eq.
Qed.

Lemma run_booksonix_files (clock : nat -> Z) (d : list row) (w : world) :
  files (run_booksonix clock d w).2 = files w.
Proof. unfold run_booksonix. destruct (Booksonix.ingest _ _ _). reflexivity. Qed.

Lemma run_gazelle_files (d : list row) (w : world) : files (run_gazelle d w).2 = files w.
Proof. unfold run_gazelle. destruct (Gazelle.ingest _ _). reflexivity. Qed.

(** C9: whatever the uploaded file holds and however the handler ends
    (a summary after all rows, rows skipped or failed, or an exception
    while reading the workbook), the uploaded file is gone from the
    upload directory when either upload handler returns. *)
Theorem upload_file_removed (clock : nat -> Z) (path : string) (w : world) :
  files (booksonix_upload clock (Some path) w).2 !! path = None
  /\ files (gazelle_upload (Some path) w).2 !! path = None.
Proof.
  split.
  - apply handler_removes_file, run_booksonix_files.
  - apply handler_removes_file, run_gazelle_files.
Qed.

End UploadFacts.

Module BooksonixFacts.
Import Booksonix.

(** The values a row's upsert gives its columns, as the column types
    store them. *)
Record values := {
  v_isbn : option string;
  v_title : string;
  v_author : string;
  v_publisher : string;
  v_price : Z;
  v_quantity : Z }.

(** The values of the upsert with the conflict key; or the error of the
    first value that does not fit. *)
Definition coerce (p : params) : (string * values) + PG.error :=
  let? sku := PG.varchar 100 (p_sku p) in
  let? isbn' := match p_isbn p with
                | None => inl None
                | Some i => let? i := PG.varchar 50 i in inl (Some i)
                end in
  let? title' := PG.varchar 500 (p_title p) in
  let? author' := PG.varchar 500 (p_author p) in
  let? publisher' := PG.varchar 500 (p_publisher p) in
  let? price' := PG.decimal 10 2 (p_price p) in
  let? quantity' := PG.integer (p_quantity p) in
  inl (sku, {| v_isbn := isbn'; v_title := title'; v_author := author';
               v_publisher := publisher'; v_price := price'; v_quantity := quantity' |}).

(** The stored row after the upsert of [v] at the instant [t] over the
    stored [o]. *)
Definition merge (t : Z) (o : option record) (v : values) : record :=
  match o with
  | None =>
      {| isbn := v_isbn v; title := v_title v; author := v_author v;
         publisher := v_publisher v; price := v_price v; quantity := v_quantity v;
         upload_date := t; last_updated := t |}
  | Some old =>
      {| isbn := match v_isbn v with
                 | Some i => if String.eqb i "" then isbn old else Some i
                 | None => isbn old
                 end;
         title := v_title v; author := author old; publisher := v_publisher v;
         price := v_price v; quantity := quantity old;
         upload_date := upload_date old; last_updated := t |}
  end.

Lemma upsert_coerce (t : Z) (p : params) (db : store) :
  upsert t p db =
    match coerce p with
    | inl (k, v) => inl (<[k := merge t (db !! k) v]> db,
                         match db !! k with Some _ => false | None => true end)
    | inr e => inr e
    end.
Proof.
  unfold upsert, coerce, merge, PG.bind_err.
  repeat case_match; cbn in *; simplify_eq; try reflexivity; congruence.
Qed.

(** What a row does to the table. *)
Inductive effect :=
| Skip
| Fail
| Write (k : string) (v : values).

Definition effect_of (r : row) : effect :=
  match normalize r with
  | None => Skip
  | Some p =>
      match coerce p with
      | inl (k, v) => Write k v
      | inr _ => Fail
      end
  end.

Lemma step_effect (t : Z) (db : store) (c : counters) (r : row) :
  step t (db, c) r =
    match effect_of r with
    | Skip => (db, incr_skip c)
    | Fail => (db, incr_err c)
    | Write k v => (<[k := merge t (db !! k) v]> db,
                    match db !! k with Some _ => incr_dup c | None => incr_new c end)
    end.
Proof.
  unfold step, effect_of. destruct (normalize r) as [p |]; [| reflexivity].
  rewrite upsert_coerce. destruct (coerce p) as [[k v] | e]; [| reflexivity].
  destruct (db !! k); reflexivity.
Qed.


Definition run (ws : list (Z * values)) (o : option record) : option record :=
  fold_left (fun o tv => Some (merge tv.1 o tv.2)) ws o.


































(** A clock for the examples: row [i] runs at instant [1000 + i]. *)
Definition sample_clock (i : nat) : Z := 1000 + Z.of_nat i.


(** C2 (amended). On a conflict on [sku] the stored ISBN is replaced only
    by a non-empty incoming ISBN; title, publisher and price are always
    overwritten, also by an empty title or publisher and a price of 0;
    author and quantity keep their stored values, and so does
    [upload_date], while [last_updated] becomes the instant [now] of the
    statement.  [v] holds the incoming values as the columns store them. *)
Theorem upsert_existing (now : Z) (p : params) (db : store) (k : string) (v : values)
    (old : record) :
  coerce p = inl (k, v) ->
  db !! k = Some old ->
  upsert now p db =
    inl (<[k := {| isbn := match v_isbn v with
                           | Some i => if String.eqb i "" then isbn old else Some i
                           | None => isbn old
                           end;
                   title := v_title v; author := author old; publisher := v_publisher v;
                   price := v_price v; quantity := quantity old;
                   upload_date := upload_date old; last_updated := now |}]> db, false).
Proof. intros Hc Hk. rewrite upsert_coerce, Hc, Hk. reflexivity. Qed.

Definition stored_book : record :=
  {| isbn := Some "9781234567897"; title := "Old Title"; author := "A. Author";
     publisher := "Old Press"; price := 1299; quantity := 4;
     upload_date := 500; last_updated := 600 |}.

Definition sku_only : params :=
  {| p_sku := "ABC123"; p_isbn := None; p_title := ""; p_author := "";
     p_publisher := ""; p_price := Num.Finite 0 0; p_quantity := 0 |}.

Lemma upsert_existing_witness :
  coerce sku_only = inl ("ABC123", {| v_isbn := None; v_title := ""; v_author := "";
                                      v_publisher := ""; v_price := 0; v_quantity := 0 |})
  /\ ({[ "ABC123" := stored_book ]} : store) !! "ABC123" = Some stored_book
  /\ upsert 1000 sku_only {[ "ABC123" := stored_book ]} =
       inl (<[ "ABC123" := {| isbn := Some "9781234567897"; title := ""; author := "A. Author";
                              publisher := ""; price := 0; quantity := 4;
                              upload_date := 500; last_updated := 1000 |} ]>
              ({[ "ABC123" := stored_book ]} : store), false).
Proof.
  assert (Hc : coerce sku_only = inl ("ABC123", {| v_isbn := None; v_title := ""; v_author := "";
                                      v_publisher := ""; v_price := 0; v_quantity := 0 |}))
    by reflexivity.
  assert (Hk : ({[ "ABC123" := stored_book ]} : store) !! "ABC123" = Some stored_book)
    by reflexivity.
  split; [exact Hc | split; [exact Hk |]].
  exact (upsert_existing 1000 sku_only {[ "ABC123" := stored_book ]} "ABC123" _ stored_book Hc Hk).
Defined.

(** C2 counterexample: a later row with only the SKU blanks the stored
    title and publisher and sets the stored price to 0. *)
Lemma blank_row_overwrites :
  (ingest sample_clock [ {[ "SKU" := CStr "ABC-123" ]} : row ] {[ "ABC123" := stored_book ]}).1
    !! "ABC123"
  = Some {| isbn := Some "9781234567897"; title := ""; author := "A. Author";
            publisher := ""; price := 0; quantity := 4;
            upload_date := 500; last_updated := 1000 |}.
Proof. vm_compute. reflexivity. Qed.

Definition abc_row (sku_label price_label sku price : string) : row :=
  {[ sku_label := CStr sku; price_label := CStr price ]}.

Definition abc_record (price upload_date last_updated : Z) : record :=
  {| isbn := None; title := ""; author := ""; publisher := ""; price := price; quantity := 0;
     upload_date := upload_date; last_updated := last_updated |}.




(** Booksonix prices: the cleaned text holds digits and dots only, so it
    has no minus sign and [parseFloat] reads a non-negative number. *)
Lemma drop_ws_by_suffix (f : bool) (l : list ascii) :
  exists p, l = p ++ Str.drop_ws_by f l.
Proof.
  remember (List.length l) as n eqn:En. revert l En.
  induction n as [n IH] using lt_wf_ind. intros l En.
  destruct l as [| c1 l1]; [exists []; reflexivity |]. cbn [Str.drop_ws_by].
  destruct (Str.is_ws c1).
  { destruct (IH (List.length l1) ltac:(cbn in En; lia) l1 eq_refl) as [p Hp].
    exists (c1 :: p). cbn. f_equal. exact Hp. }
  destruct l1 as [| c2 l2]; [exists []; reflexivity |].
  destruct (if f then Str.is_ws2 c1 c2 else Str.is_ws2 c2 c1).
  { destruct (IH (List.length l2) ltac:(cbn in En; lia) l2 eq_refl) as [p Hp].
    exists (c1 :: c2 :: p). cbn. do 2 f_equal. exact Hp. }
  destruct l2 as [| c3 l3]; [exists []; reflexivity |].
  destruct (if f then Str.is_ws3 c1 c2 c3 else Str.is_ws3 c3 c2 c1).
  - destruct (IH (List.length l3) ltac:(cbn in En; lia) l3 eq_refl) as [p Hp].
    exists (c1 :: c2 :: c3 :: p). cbn. do 3 f_equal. exact Hp.
  - exists []. reflexivity.
Qed.

(** A one-byte character that is not white space starts no encoding of
    white space, forwards or backwards. *)
Lemma drop_ws_ascii (f : bool) (c : ascii) (l : list ascii) :
  Str.is_ws c = false -> (nat_of_ascii c < 128)%nat -> Str.drop_ws_by f (c :: l) = c :: l.
Proof.
  intros Hws Hc. cbn [Str.drop_ws_by]. rewrite Hws.
  destruct l as [| c2 l2]; [reflexivity |].
  assert (H2 : (if f then Str.is_ws2 c c2 else Str.is_ws2 c2 c) = false).
  { apply Bool.not_true_iff_false. unfold Str.is_ws2. intros H.
    destruct f; rewrite andb_true_iff, !Nat.eqb_eq in H; lia. }
  rewrite H2. destruct l2 as [| c3 l3]; [reflexivity |].
  assert (H3 : (if f then Str.is_ws3 c c2 c3 else Str.is_ws3 c3 c2 c) = false).
  { apply Bool.not_true_iff_false. unfold Str.is_ws3. intros H.
    destruct f; repeat rewrite ?orb_true_iff, ?andb_true_iff, ?Nat.eqb_eq, ?Nat.leb_le in H; lia. }
  rewrite H3. reflexivity.
Qed.

Lemma Forall_drop_ws_by (P : ascii -> Prop) (f : bool) (l : list ascii) :
  Forall P l -> Forall P (Str.drop_ws_by f l).
Proof.
  destruct (drop_ws_by_suffix f l) as [p Hp]. rewrite Hp at 1.
  intros H. apply Forall_app in H. apply H.
Qed.

Lemma Forall_drop_ws (P : ascii -> Prop) (l : list ascii) :
  Forall P l -> Forall P (Str.drop_ws l).
Proof. apply Forall_drop_ws_by. Qed.

Lemma Forall_trim (P : ascii -> Prop) (s : string) :
  Forall P (list_ascii_of_string s) -> Forall P (list_ascii_of_string (Str.trim s)).
Proof.
  intros H. unfold Str.trim. rewrite list_ascii_of_string_of_list_ascii.
  apply Forall_rev, Forall_drop_ws_by, Forall_rev, Forall_drop_ws, H.
Qed.

Lemma Forall_keep_only (f : ascii -> bool) (s : string) :
  Forall (fun c => f c = true) (list_ascii_of_string (Str.keep_only f s)).
Proof.
  unfold Str.keep_only. rewrite list_ascii_of_string_of_list_ascii.
  apply Forall_forall. intros c Hc. apply list_elem_of_In, filter_In in Hc. apply Hc.
Qed.

Lemma clean_price_text_no_minus (s : string) :
  Forall (fun c => Ascii.eqb c "-" = false) (list_ascii_of_string (clean_price_text s)).
Proof.
  unfold clean_price_text. apply Forall_trim.
  eapply Forall_impl; [apply Forall_keep_only |]. cbn beta.
  intros c Hc. destruct (Ascii.eqb_spec c "-") as [-> | _]; [discriminate | reflexivity].
Qed.

Lemma take_digits_digits (l : list ascii) :
  Forall (fun c => Str.is_digit c = true) (Num.take_digits l).1.
Proof.
  induction l as [| c l IH]; [constructor |]. cbn.
  destruct (Str.is_digit c) eqn:Hc; [| constructor].
  destruct (Num.take_digits l) as [ds r]. constructor; assumption.
Qed.

Lemma digits_fold_nonneg (ds : list ascii) (acc : Z) :
  0 <= acc -> Forall (fun c => Str.is_digit c = true) ds ->
  0 <= fold_left (fun acc c => acc * 10 + Str.digit_val c) ds acc.
Proof.
  revert acc. induction ds as [| c ds IH]; intros acc Hacc H; [exact Hacc |].
  inversion H as [| ? ? Hc Hds]; subst. cbn [fold_left]. apply IH; [| exact Hds].
  unfold Str.is_digit in Hc. unfold Str.digit_val.
  apply andb_true_iff in Hc as [H1 _]. apply Z.leb_le in H1. lia.
Qed.

Lemma digits_value_nonneg (ds : list ascii) :
  Forall (fun c => Str.is_digit c = true) ds -> 0 <= Num.digits_value ds.
Proof. apply digits_fold_nonneg. lia. Qed.

Lemma parse_float_nonneg (s : string) (m : Z) (e : nat) :
  Forall (fun c => Ascii.eqb c "-" = false) (list_ascii_of_string s) ->
  Num.parse_float s = Some (Num.Finite m e) -> 0 <= m.
Proof.
  intros Hs. unfold Num.parse_float.
  assert (Hl := Forall_drop_ws _ _ Hs).
  remember (Str.drop_ws (list_ascii_of_string s)) as l eqn:El. clear El.
  assert (Hneg : (Num.take_sign l).1 = false).
  { destruct l as [| c l']; [reflexivity |]. inversion Hl as [| ? ? Hc _]; subst.
    cbn. rewrite Hc. destruct (Ascii.eqb c "+"); reflexivity. }
  destruct (Num.take_sign l) as [neg l1]. cbn in Hneg. subst neg.
  destruct (Str.prefix_by _ _ l1); [discriminate |].
  assert (Hip := take_digits_digits l1).
  destruct (Num.take_digits l1) as [ip l2]. cbn in Hip.
  assert (Hfp : Forall (fun c => Str.is_digit c = true)
                  (match l2 with
                   | c :: r => if Ascii.eqb c "." then Num.take_digits r else ([], l2)
                   | [] => ([], [])
                   end).1).
  { destruct l2 as [| c r]; [constructor |].
    destruct (Ascii.eqb c "."); [apply take_digits_digits | constructor]. }
  destruct (match l2 with
            | c :: r => if Ascii.eqb c "." then Num.take_digits r else ([], l2)
            | [] => ([], [])
            end) as [fp l3]. cbn in Hfp.
  assert (Hd := digits_value_nonneg (ip ++ fp) (Forall_app_2 _ _ _ Hip Hfp)).
  destruct (ip ++ fp) as [| d ds]; [discriminate |].
  destruct (0 <=? _) eqn:Hk; intros H; injection H as <- <-.
  - apply Z.leb_le in Hk. apply Z.mul_nonneg_nonneg; [exact Hd | apply Z.pow_nonneg; lia].
  - exact Hd.
Qed.

(** A number with no minus sign. *)
Definition nonneg_num (v : Num.number) : Prop :=
  match v with
  | Num.Finite m _ => 0 <= m
  | Num.Infinite neg => neg = false
  end.

Lemma parse_float_inf (s : string) (neg : bool) :
  Forall (fun c => Ascii.eqb c "-" = false) (list_ascii_of_string s) ->
  Num.parse_float s = Some (Num.Infinite neg) -> neg = false.
Proof.
  intros Hs. unfold Num.parse_float.
  assert (Hl := Forall_drop_ws _ _ Hs).
  remember (Str.drop_ws (list_ascii_of_string s)) as l eqn:El. clear El.
  assert (Hneg : (Num.take_sign l).1 = false).
  { destruct l as [| c l']; [reflexivity |]. inversion Hl as [| ? ? Hc _]; subst.
    cbn. rewrite Hc. destruct (Ascii.eqb c "+"); reflexivity. }
  destruct (Num.take_sign l) as [n l1]. cbn in Hneg. subst n.
  destruct (Str.prefix_by _ _ l1); [congruence |].
  repeat case_match; congruence.
Qed.

Lemma float_or_zero_nonneg (s : string) :
  Forall (fun c => Ascii.eqb c "-" = false) (list_ascii_of_string s) ->
  nonneg_num (Num.float_or_zero s).
Proof.
  intros Hs. unfold Num.float_or_zero.
  destruct (Num.parse_float s) as [[m e | neg] |] eqn:Hp; cbn; [| | lia].
  - destruct (m =? 0); cbn; [lia |]. exact (parse_float_nonneg s m e Hs Hp).
  - exact (parse_float_inf s neg Hs Hp).
Qed.

Lemma clean_price_nonneg (r : row) : nonneg_num (clean_price r).
Proof.
  unfold clean_price. destruct (truthy _); [| cbn; lia].
  apply float_or_zero_nonneg, clean_price_text_no_minus.
Qed.

Lemma round_scaled_nonneg (s : nat) (m : Z) (e : nat) :
  0 <= m -> 0 <= PG.round_scaled s m e.
Proof.
  intros Hm. unfold PG.round_scaled.
  destruct (e <=? s)%nat.
  - apply Z.mul_nonneg_nonneg; [exact Hm | apply Z.pow_nonneg; lia].
  - assert (Hd : 0 < 10 ^ Z.of_nat (e - s)) by (apply Z.pow_pos_nonneg; lia).
    replace (m <? 0) with false by (symmetry; apply Z.ltb_ge; exact Hm).
    apply Z.div_pos; lia.
Qed.

Lemma coerce_price_nonneg (p : params) (k : string) (v : values) :
  coerce p = inl (k, v) -> nonneg_num (p_price p) -> 0 <= v_price v.
Proof.
  intros Hc Hp.
  assert (Hd : PG.decimal 10 2 (p_price p) = inl (v_price v)).
  { unfold coerce, PG.bind_err in Hc. repeat case_match; simplify_eq; reflexivity. }
  unfold PG.decimal in Hd. destruct (p_price p) as [m e | neg]; [| discriminate].
  case_match; simplify_eq. rewrite <- Hd. apply round_scaled_nonneg, Hp.
Qed.

Lemma effect_price_nonneg (r : row) (k : string) (v : values) :
  effect_of r = Write k v -> 0 <= v_price v.
Proof.
  unfold effect_of. destruct (normalize r) as [p |] eqn:Hn; [| discriminate].
  destruct (coerce p) as [[k' v'] | ] eqn:Hc; [| discriminate]. intros H; injection H as <- <-.
  apply (coerce_price_nonneg p k'); [exact Hc |].
  unfold normalize in Hn. destruct (clean_sku r); [| discriminate].
  injection Hn as <-. apply clean_price_nonneg.
Qed.

Definition prices_nonneg (db : store) : Prop :=
  forall k x, db !! k = Some x -> 0 <= price x.

Lemma step_prices_nonneg (t : Z) (db : store) (c : counters) (r : row) :
  prices_nonneg db -> prices_nonneg (step t (db, c) r).1.
Proof.
  intros Hdb. rewrite step_effect.
  destruct (effect_of r) as [| | k v] eqn:Er; [exact Hdb | exact Hdb |].
  cbn [fst]. intros k' x Hx.
  destruct (String.eqb_spec k k') as [<- | Hne].
  - rewrite lookup_insert_eq in Hx. injection Hx as <-.
    assert (Hv := effect_price_nonneg r k v Er).
    destruct (db !! k); exact Hv.
  - rewrite lookup_insert_ne in Hx by exact Hne. exact (Hdb k' x Hx).
Qed.

Lemma fold_prices_nonneg (clock : nat -> Z) (i : nat) (data : list row) (db : store)
    (c : counters) :
  prices_nonneg db -> prices_nonneg (ingest_from clock i data (db, c)).1.
Proof.
  revert i db c. induction data as [| r data IH]; intros i db c Hdb; [exact Hdb |].
  cbn [ingest_from]. destruct (step (clock i) (db, c) r) as [db' c'] eqn:Hs.
  apply IH. change db' with (db', c').1. rewrite <- Hs. apply step_prices_nonneg, Hdb.
Qed.

(** C7 (amended, Booksonix part). Every price the Booksonix upload stores
    is non-negative: the cleaned price text keeps only digits and dots, so
    no input string gives a negative price.  (The Gazelle unit price and
    discount keep a minus sign; see the Gazelle facts.) *)
Theorem booksonix_price_nonneg (clock : nat -> Z) (data : list row) (db : store) (k : string)
    (x : record) :
  (forall k' x', db !! k' = Some x' -> 0 <= price x') ->
  (ingest clock data db).1 !! k = Some x -> 0 <= price x.
Proof. intros Hdb. apply (fold_prices_nonneg clock 0 data db zero Hdb). Qed.

Lemma booksonix_price_nonneg_witness :
  (ingest sample_clock [abc_row "SKU" "Price" "ABC-123" "-£5.00"] ∅).1 !! "ABC123"
    = Some (abc_record 500 1000 1000)
  /\ 0 <= price (abc_record 500 1000 1000).
Proof.
  assert (H : (ingest sample_clock [abc_row "SKU" "Price" "ABC-123" "-£5.00"] ∅).1 !! "ABC123"
              = Some (abc_record 500 1000 1000)) by (vm_compute; reflexivity).
  split; [exact H |].
  apply (booksonix_price_nonneg sample_clock [abc_row "SKU" "Price" "ABC-123" "-£5.00"] ∅ "ABC123");
    [intros k' x' Hx; vm_compute in Hx; discriminate | exact H].
Defined.

End BooksonixFacts.

Module GazelleFacts.
Import Gazelle.

(** No ['d'] in a text: then it cannot contain ["duplicate"]. *)
Definition no_d (l : list ascii) : Prop := Forall (fun x => Ascii.eqb x "d" = false) l.

Lemma list_ascii_of_string_app (s1 s2 : string) :
  list_ascii_of_string (s1 ++ s2) = list_ascii_of_string s1 ++ list_ascii_of_string s2.
Proof.
  induction s1 as [| c s1 IH]; [reflexivity |].
  change (c :: list_ascii_of_string (s1 ++ s2)
          = c :: (list_ascii_of_string s1 ++ list_ascii_of_string s2)).
  rewrite IH. reflexivity.
Qed.

Lemma digit_char_no_d (n : Z) :
  Ascii.eqb (ascii_of_nat (Z.to_nat (48 + n mod 10))) "d" = false.
Proof.
  assert (Hr : 0 <= n mod 10 < 10) by (apply Z.mod_pos_bound; lia).
  remember (n mod 10) as t eqn:Et. clear Et.
  assert (Ht : t = 0 \/ t = 1 \/ t = 2 \/ t = 3 \/ t = 4 \/ t = 5 \/ t = 6 \/ t = 7
               \/ t = 8 \/ t = 9) by lia.
  repeat destruct Ht as [-> | Ht]; try reflexivity. subst t. reflexivity.
Qed.

Lemma digits_aux_no_d (fuel : nat) (n : Z) (acc : list ascii) :
  no_d acc -> no_d (Str.digits_aux fuel n acc).
Proof.
  revert n acc. induction fuel as [| f IH]; intros n acc H; [exact H |].
  cbn [Str.digits_aux].
  assert (H' : no_d (ascii_of_nat (Z.to_nat (48 + n mod 10)) :: acc))
    by (constructor; [apply digit_char_no_d | exact H]).
  destruct (n <? 10); [exact H' | apply IH, H'].
Qed.

Lemma digits_no_d (n : Z) : no_d (Str.digits n).
Proof. apply digits_aux_no_d. constructor. Qed.

Lemma drop_zeros_no_d (l : list ascii) : no_d l -> no_d (Str.drop_zeros l).
Proof.
  induction l as [| c l IH]; intros H; [exact H |]. cbn.
  destruct (Ascii.eqb c "0"); [apply IH; inversion H; assumption | exact H].
Qed.

Lemma number_to_string_no_d (m : Z) (e : nat) :
  no_d (list_ascii_of_string (number_to_string m e)).
Proof.
  unfold number_to_string. rewrite list_ascii_of_string_of_list_ascii.
  assert (Hb : no_d (let ip := Str.digits (Z.abs m / 10 ^ Z.of_nat e) in
                     let frac := rev (Str.drop_zeros (rev (List.tl
                                   (Str.digits (10 ^ Z.of_nat e + Z.abs m mod 10 ^ Z.of_nat e))))) in
                     if decide (frac = []) then ip else ip ++ ["."%char] ++ frac)).
  { cbv zeta. case_decide; [apply digits_no_d |].
    apply Forall_app_2; [apply digits_no_d |]. apply Forall_app_2; [repeat constructor |].
    apply Forall_rev, drop_zeros_no_d, Forall_rev.
    assert (Hd := digits_no_d (10 ^ Z.of_nat e + Z.abs m mod 10 ^ Z.of_nat e)).
    destruct (Str.digits _); [constructor | inversion Hd; assumption]. }
  destruct (m <? 0); [constructor; [reflexivity | exact Hb] | exact Hb].
Qed.

Lemma includes_head (c : ascii) (sub l : list ascii) :
  Str.includes_aux (c :: sub) l = true -> In c l.
Proof.
  induction l as [| x l IH]; cbn; [discriminate |].
  intros H. apply orb_true_iff in H as [H | H].
  - apply andb_true_iff in H as [H _]. unfold Str.ascii_eqb in H.
    apply Ascii.eqb_eq in H. left. symmetry. exact H.
  - right. apply IH, H.
Qed.

Lemma no_d_no_duplicate (s : string) :
  no_d (list_ascii_of_string s) -> Str.includes s "duplicate" = false.
Proof.
  intros H. unfold Str.includes. destruct (Str.includes_aux _ _) eqn:E; [| reflexivity].
  apply includes_head in E. apply Forall_forall with (x := "d"%char) in H;
    [discriminate | apply list_elem_of_In, E].
Qed.

(** An error PostgreSQL raises for a value of the insert: neither a
    "duplicate" message nor the unique-violation code. *)
Definition not_unique_violation (e : PG.error) : Prop :=
  Str.includes (PG.message e) "duplicate" = false /\ String.eqb (PG.code e) "23505" = false.

Lemma varchar_error (n : nat) (s : string) (e : PG.error) :
  PG.varchar n s = inr e -> not_unique_violation e.
Proof.
  intros Hv. unfold PG.varchar in Hv. repeat case_match; simplify_eq. split; [| reflexivity].
  apply no_d_no_duplicate. cbn [PG.message].
  rewrite !list_ascii_of_string_app. unfold PG.nat_text.
  rewrite list_ascii_of_string_of_list_ascii.
  apply Forall_app_2; [repeat constructor | apply Forall_app_2; [apply digits_no_d |]].
  repeat constructor.
Qed.

Lemma decimal_error (p s : nat) (v : Num.number) (e : PG.error) :
  PG.decimal p s v = inr e -> not_unique_violation e.
Proof.
  intros Hv. unfold PG.decimal in Hv. destruct v; [case_match |]; simplify_eq; split; reflexivity.
Qed.

Lemma integer_error (q : Z) (e : PG.error) :
  PG.integer q = inr e -> not_unique_violation e.
Proof.
  intros Hv. unfold PG.integer in Hv. case_match; simplify_eq. split; [| reflexivity].
  apply no_d_no_duplicate. cbn [PG.message].
  rewrite !list_ascii_of_string_app.
  apply Forall_app_2; [repeat constructor |].
  apply Forall_app_2; [repeat constructor |].
  apply Forall_app_2; [apply number_to_string_no_d |].
  apply Forall_app_2; repeat constructor.
Qed.

(** The values of the insert as the columns store them, or the error of
    the first value that does not fit. *)
Definition to_record (p : params) : record + PG.error :=
  let? order_ref' := PG.varchar 100 (p_order_ref p) in
  let? customer_name' := PG.varchar 500 (p_customer_name p) in
  let? city' := PG.varchar 200 (p_city p) in
  let? country' := PG.varchar 100 (p_country p) in
  let? title' := PG.varchar 500 (p_title p) in
  let? isbn13' := PG.varchar 50 (p_isbn13 p) in
  let? quantity' := PG.integer (p_quantity p) in
  let? unit_price' := PG.decimal 10 2 (p_unit_price p) in
  let? discount' := PG.decimal 5 2 (p_discount p) in
  let? publisher' := PG.varchar 500 (p_publisher p) in
  let? format' := PG.varchar 100 (p_format p) in
  inl {| order_ref := order_ref'; order_date := date_column (p_order_date p);
         customer_name := customer_name'; city := city'; country := country';
         title := title'; isbn13 := isbn13'; quantity := quantity';
         unit_price := unit_price'; discount := discount';
         publisher := publisher'; format := format' |}.

Lemma insert_to_record (p : params) (db : table) :
  insert p db = match to_record p with inl x => inl (db ++ [x]) | inr e => inr e end.
Proof. unfold insert, to_record, PG.bind_err. repeat case_match; simplify_eq; reflexivity. Qed.

Lemma to_record_error (p : params) (e : PG.error) :
  to_record p = inr e -> not_unique_violation e.
Proof.
  intros Hr. unfold to_record, PG.bind_err in Hr.
  repeat case_match; simplify_eq;
    first [ eapply varchar_error; eassumption
          | eapply decimal_error; eassumption
          | eapply integer_error; eassumption ].
Qed.

(** The duplicate branch of the catch is never taken. *)
Lemma step_no_update (i : nat) (db : table) (c : counters) (r : row) :
  step i (db, c) r =
    if String.eqb (p_order_ref (normalize r)) "" || String.eqb (p_customer_name (normalize r)) ""
    then (db, incr_skipped c)
    else match to_record (normalize r) with
         | inl x => (db ++ [x], incr_new c)
         | inr e => (db, record_error i (PG.message e) c)
         end.
Proof.
  unfold step. rewrite insert_to_record.
  destruct (_ || _); [reflexivity |].
  destruct (to_record (normalize r)) as [x | e] eqn:E; [reflexivity |].
  destruct (to_record_error _ _ E) as [H1 H2]. rewrite H1, H2. reflexivity.
Qed.

(** The records the rows insert, in order: one per row with an order
    reference and a customer name whose values all fit their columns. *)
Definition inserted (data : list row) : list record :=
  flat_map (fun r =>
    if String.eqb (p_order_ref (normalize r)) "" || String.eqb (p_customer_name (normalize r)) ""
    then []
    else match to_record (normalize r) with inl x => [x] | inr _ => [] end) data.

Lemma ingest_from_inserted (i : nat) (data : list row) (db : table) (c : counters) :
  (ingest_from i data (db, c)).1 = db ++ inserted data
  /\ updatedRecords (ingest_from i data (db, c)).2 = updatedRecords c
  /\ newRecords (ingest_from i data (db, c)).2 = (newRecords c + List.length (inserted data))%nat
  /\ (newRecords (ingest_from i data (db, c)).2 + errors (ingest_from i data (db, c)).2
      + skippedRows (ingest_from i data (db, c)).2
      = newRecords c + errors c + skippedRows c + List.length data)%nat.
Proof.
  revert i db c. induction data as [| r data IH]; intros i db c.
  - cbn. rewrite app_nil_r. repeat split; lia.
  - cbn [ingest_from]. rewrite step_no_update. unfold inserted. cbn [flat_map].
    fold (inserted data).
    destruct (_ || _).
    + destruct (IH (S i) db (incr_skipped c)) as (H1 & H2 & H3 & H4).
      cbn [app]. rewrite H1, H2. cbn in H3, H4 |- *. repeat split; lia.
    + destruct (to_record (normalize r)) as [x | e].
      * destruct (IH (S i) (db ++ [x]) (incr_new c)) as (H1 & H2 & H3 & H4).
        rewrite H1, H2, <- app_assoc. cbn in H3, H4 |- *. repeat split; lia.
      * destruct (IH (S i) db (record_error i (PG.message e) c)) as (H1 & H2 & H3 & H4).
        cbn [app]. rewrite H1, H2. cbn in H3, H4 |- *. repeat split; lia.
Qed.

(** C10 (amended). The Gazelle upload never counts a row as updated: each
    row with an order reference and a customer name whose values fit their
    columns is appended as a new record, the others are counted as errors
    or skipped rows; ingesting the same rows again appends the same records
    a second time. *)
Theorem gazelle_no_duplicates (data : list row) (db : table) :
  let first := ingest data db in
  let second := ingest data first.1 in
  first.1 = db ++ inserted data
  /\ updatedRecords first.2 = 0%nat
  /\ newRecords first.2 = List.length (inserted data)
  /\ (newRecords first.2 + errors first.2 + skippedRows first.2 = List.length data)%nat
  /\ second.1 = db ++ inserted data ++ inserted data
  /\ updatedRecords second.2 = 0%nat
  /\ newRecords second.2 = newRecords first.2.
Proof.
  cbv zeta. unfold ingest.
  destruct (ingest_from_inserted 0 data db zero) as (A1 & A2 & A3 & A4).
  destruct (ingest_from_inserted 0 data (ingest_from 0 data (db, zero)).1 zero)
    as (B1 & B2 & B3 & B4).
  cbn [newRecords updatedRecords errors skippedRows zero] in A2, A3, A4, B2, B3.
  rewrite B2, B3, B1, A1, <- app_assoc, A3.
  repeat split; [exact A2 | lia].
Qed.

Definition long_ref : string := string_of_list_ascii (repeat "A"%char 101).

(** C10 counterexample: a row with an order reference and a customer name
    is not inserted when its order reference is longer than the 100
    characters of its column: the insert fails and the row is counted as
    an error. *)
Lemma gazelle_long_order_ref :
  let data := [ {[ "Order Ref" := CStr long_ref; "Customer Name" := CStr "Bookshop" ]} : row ] in
  (ingest data []).1 = [] /\ newRecords (ingest data []).2 = 0%nat
  /\ errors (ingest data []).2 = 1%nat.
Proof. vm_compute. repeat split. Qed.

(** C7 counterexample: the Gazelle cleaning keeps a minus sign, so a unit
    price [-5.00] and a discount [-10%] are stored as -5.00 and -10.00. *)
Lemma gazelle_negative_price :
  let data := [ {[ "Order Ref" := CStr "SO-1"; "Customer Name" := CStr "Bookshop";
                   "Unit Price" := CStr "-5.00"; "Discount" := CStr "-10%" ]} : row ] in
  List.map (fun x => (unit_price x, discount x)) (ingest data []).1 = [(-500, -1000)].
Proof. vm_compute. reflexivity. Qed.

End GazelleFacts.

Module KeyFacts.

(** C4 (amended). A row whose key is empty after cleaning writes nothing
    and is counted neither as new nor as updated.  The Booksonix loop
    counts it in [skippedNoSku] and also in [errors]; the Gazelle loop
    counts it in [skippedRows] only, apart from [errors]. *)
Theorem row_without_key_skipped :
  (forall (now : Z) (db : Booksonix.store) (c : Booksonix.counters) (r : row),
     Booksonix.clean_sku r = None ->
     Booksonix.step now (db, c) r =
       (db, {| Booksonix.newRecords := Booksonix.newRecords c;
               Booksonix.duplicates := Booksonix.duplicates c;
               Booksonix.errors := S (Booksonix.errors c);
               Booksonix.skippedNoSku := S (Booksonix.skippedNoSku c) |}))
  /\ (forall (i : nat) (db : Gazelle.table) (c : Gazelle.counters) (r : row),
     Gazelle.text_field r Gazelle.order_ref_aliases = ""
     \/ Gazelle.text_field r Gazelle.customer_name_aliases = "" ->
     Gazelle.step i (db, c) r =
       (db, {| Gazelle.newRecords := Gazelle.newRecords c;
               Gazelle.updatedRecords := Gazelle.updatedRecords c;
               Gazelle.errors := Gazelle.errors c;
               Gazelle.skippedRows := S (Gazelle.skippedRows c);
               Gazelle.errorDetails := Gazelle.errorDetails c |})).
Proof.
  split.
  - intros now db c r Hk. unfold Booksonix.step, Booksonix.normalize. rewrite Hk. reflexivity.
  - intros i db c r Hk. unfold Gazelle.step. cbn [Gazelle.p_order_ref Gazelle.p_customer_name Gazelle.normalize].
    replace (String.eqb (Gazelle.text_field r Gazelle.order_ref_aliases) ""
             || String.eqb (Gazelle.text_field r Gazelle.customer_name_aliases) "") with true;
      [reflexivity |].
    destruct Hk as [-> | ->]; [reflexivity | rewrite orb_comm; reflexivity].
Qed.

Definition no_sku_row : row := {[ "Title" := CStr "Book"; "Price" := CStr "£5.00" ]}.
Definition no_customer_row : row := {[ "Order Ref" := CStr "SO-1"; "Title" := CStr "Book" ]}.
(** A SKU cell holding only a no-break space (U+00A0, UTF-8 C2 A0), which
    [trim] removes. *)
Definition nbsp_sku_row : row :=
  {[ "SKU" := CStr (String (ascii_of_nat 194) (String (ascii_of_nat 160) EmptyString));
     "Title" := CStr "Book" ]}.

Lemma row_without_key_skipped_witness :
  Booksonix.clean_sku no_sku_row = None
  /\ Booksonix.step 1000 (∅, Booksonix.zero) no_sku_row
     = (∅, {| Booksonix.newRecords := 0; Booksonix.duplicates := 0;
              Booksonix.errors := 1; Booksonix.skippedNoSku := 1 |})
  /\ Booksonix.clean_sku nbsp_sku_row = None
  /\ Booksonix.step 1000 (∅, Booksonix.zero) nbsp_sku_row
     = (∅, {| Booksonix.newRecords := 0; Booksonix.duplicates := 0;
              Booksonix.errors := 1; Booksonix.skippedNoSku := 1 |})
  /\ Gazelle.text_field no_customer_row Gazelle.customer_name_aliases = ""
  /\ Gazelle.step 0 ([], Gazelle.zero) no_customer_row
     = ([], {| Gazelle.newRecords := 0; Gazelle.updatedRecords := 0; Gazelle.errors := 0;
               Gazelle.skippedRows := 1; Gazelle.errorDetails := [] |}).
Proof.
  assert (HB : Booksonix.clean_sku no_sku_row = None) by (vm_compute; reflexivity).
  assert (HN : Booksonix.clean_sku nbsp_sku_row = None) by (vm_compute; reflexivity).
  assert (HG : Gazelle.text_field no_customer_row Gazelle.customer_name_aliases = "")
    by (vm_compute; reflexivity).
  destruct row_without_key_skipped as [B G].
  split; [exact HB | split; [exact (B 1000 ∅ Booksonix.zero no_sku_row HB) |]].
  split; [exact HN | split; [exact (B 1000 ∅ Booksonix.zero nbsp_sku_row HN) |]].
  split; [exact HG | exact (G 0%nat [] Gazelle.zero no_customer_row (or_intror HG))].
Defined.

(** C4 failing input: the Booksonix response reports a row without SKU
    only among its errors, the same count as a rejected write; it has no
    separate count of skipped rows. *)
Lemma booksonix_no_sku_reported_as_error :
  let w := {| Upload.files := {[ "uploads/f" := Upload.Workbook [[no_sku_row]] ]};
              Upload.booksonix_records := ∅; Upload.gazelle_sales := [] |} in
  (Upload.booksonix_upload BooksonixFacts.sample_clock (Some "uploads/f") w).1
  = inl (Upload.BooksonixDone 1 0 0 1).
Proof. vm_compute. reflexivity. Qed.

End KeyFacts.

(* ================================================================== *)
(** * Further properties of the upload handlers *)

Module CleanFacts.

Definition no_hyphen (s : string) : Prop :=
  Forall (fun c => c <> "-"%char) (list_ascii_of_string s).

Lemma length_list_ascii (s : string) : List.length (list_ascii_of_string s) = String.length s.
Proof. induction s as [| c s IH]; cbn; [reflexivity | rewrite IH; reflexivity]. Qed.

(** [s.replace(/-/g, '')] leaves no hyphen. *)
Lemma remove_hyphen_aux (fuel : nat) (l : list ascii) :
  (List.length l <= fuel)%nat ->
  Forall (fun c => c <> "-"%char)
    (Str.remove_all_aux fuel Str.ascii_eqb [list_ascii_of_string "-"] l).
Proof.
  revert l. induction fuel as [| f IH]; intros l Hl.
  - destruct l; [constructor | cbn in Hl; lia].
  - destruct l as [| c l']; [constructor |]. cbn in Hl.
    cbn [Str.remove_all_aux list_ascii_of_string List.find Str.prefix_by].
    destruct (Str.ascii_eqb "-" c) eqn:E; cbn.
    + apply IH. cbn. change (drop 0 l') with l'. lia.
    + constructor; [intros ->; discriminate E | apply IH; lia].
Qed.

Lemma remove_hyphen (s : string) : no_hyphen (Str.remove_all "-" s).
Proof.
  unfold no_hyphen, Str.remove_all. rewrite list_ascii_of_string_of_list_ascii.
  apply remove_hyphen_aux. rewrite length_list_ascii. lia.
Qed.

Lemma trim_no_hyphen (s : string) : no_hyphen s -> no_hyphen (Str.trim s).
Proof. apply BooksonixFacts.Forall_trim. Qed.

Lemma list_ascii_substring (n : nat) (s : string) :
  list_ascii_of_string (substring 0 n s) = firstn n (list_ascii_of_string s).
Proof.
  revert s. induction n as [| n IH]; intros s; destruct s as [| c s]; try reflexivity.
  cbn. rewrite IH. reflexivity.
Qed.

(** A value [VARCHAR(n)] accepts keeps its characters, and is not empty
    when the given text is not, for [n > 0]. *)
Lemma utf8_split_app (n : nat) (l : list ascii) :
  (PG.utf8_split n l).1 ++ (PG.utf8_split n l).2 = l.
Proof.
  revert n. induction l as [| c l IH]; intros n; [reflexivity |]. cbn [PG.utf8_split].
  destruct (PG.is_cont c).
  - specialize (IH n). destruct (PG.utf8_split n l). cbn in *. f_equal. exact IH.
  - destruct n as [| n]; [reflexivity |].
    specialize (IH n). destruct (PG.utf8_split n l). cbn in *. f_equal. exact IH.
Qed.

(** A value [VARCHAR(n)] accepts keeps its characters, and is not empty
    when the given text is not, for [n > 0]. *)
Lemma varchar_keeps (P : ascii -> Prop) (n : nat) (s t : string) :
  PG.varchar n s = inl t -> Forall P (list_ascii_of_string s) -> Forall P (list_ascii_of_string t).
Proof.
  unfold PG.varchar. intros Hv H.
  destruct (_ <=? n)%nat; [injection Hv as <-; exact H |].
  assert (Ha := utf8_split_app n (list_ascii_of_string s)).
  destruct (PG.utf8_split n (list_ascii_of_string s)) as [a b].
  destruct (forallb _ b); [injection Hv as <- | discriminate].
  rewrite list_ascii_of_string_of_list_ascii. cbn in Ha. rewrite <- Ha in H.
  apply Forall_app in H. apply H.
Qed.

Lemma varchar_nonempty (n : nat) (s t : string) :
  (0 < n)%nat -> PG.varchar n s = inl t -> s <> "" -> t <> "".
Proof.
  unfold PG.varchar. intros Hn Hv Hs.
  destruct (_ <=? n)%nat; [injection Hv as <-; exact Hs |].
  destruct s as [| c s]; [contradiction |]. cbn [list_ascii_of_string PG.utf8_split] in Hv.
  destruct (PG.is_cont c).
  - destruct (PG.utf8_split n (list_ascii_of_string s)) as [a b].
    destruct (forallb _ b); [injection Hv as <-; discriminate | discriminate].
  - destruct n as [| n]; [lia |].
    destruct (PG.utf8_split n (list_ascii_of_string s)) as [a b].
    destruct (forallb _ b); [injection Hv as <-; discriminate | discriminate].
Qed.

Lemma clean_text_ok (v : cell) (x : string) :
  (let t := Str.trim (Str.remove_all "-" (js_to_string v)) in
   if String.eqb t "" then None else Some t) = Some x ->
  x <> "" /\ no_hyphen x.
Proof.
  cbv zeta. destruct (String.eqb_spec (Str.trim (Str.remove_all "-" (js_to_string v))) "")
    as [_ | Hne]; intros H; [discriminate | injection H as <-].
  split; [exact Hne | apply trim_no_hyphen, remove_hyphen].
Qed.

Lemma clean_sku_ok (r : row) (sku : string) :
  Booksonix.clean_sku r = Some sku -> sku <> "" /\ no_hyphen sku.
Proof.
  unfold Booksonix.clean_sku. destruct (truthy _); [apply clean_text_ok | discriminate].
Qed.

Lemma clean_isbn_ok (r : row) (i : string) :
  Booksonix.clean_isbn r = Some i -> i <> "" /\ no_hyphen i.
Proof.
  unfold Booksonix.clean_isbn. destruct (truthy _); [apply clean_text_ok | discriminate].
Qed.

Definition key_ok (k : string) : Prop := k <> "" /\ no_hyphen k.

Definition isbn_ok (o : option string) : Prop :=
  match o with
  | Some i => i <> "" /\ no_hyphen i
  | None => True
  end.

Lemma effect_clean (r : row) (k : string) (v : BooksonixFacts.values) :
  BooksonixFacts.effect_of r = BooksonixFacts.Write k v -> key_ok k /\ isbn_ok (BooksonixFacts.v_isbn v).
Proof.
  unfold BooksonixFacts.effect_of. destruct (Booksonix.normalize r) as [p |] eqn:Hn; [| discriminate].
  destruct (BooksonixFacts.coerce p) as [[k' v'] |] eqn:Hc; [| discriminate].
  intros H; injection H as <- <-.
  unfold Booksonix.normalize in Hn. destruct (Booksonix.clean_sku r) as [sku |] eqn:Hs; [| discriminate].
  injection Hn as <-. apply clean_sku_ok in Hs as [Hs1 Hs2].
  destruct (Booksonix.clean_isbn r) as [i |] eqn:Hi.
  - apply clean_isbn_ok in Hi as [Hi1 Hi2].
    unfold BooksonixFacts.coerce, PG.bind_err in Hc. cbn [Booksonix.p_sku Booksonix.p_isbn] in Hc.
    repeat case_match; simplify_eq. cbn [BooksonixFacts.v_isbn].
    split; split.
    + eapply varchar_nonempty; [| eassumption | exact Hs1]. lia.
    + eapply varchar_keeps; eassumption.
    + eapply varchar_nonempty; [| eassumption | exact Hi1]. lia.
    + eapply varchar_keeps; eassumption.
  - unfold BooksonixFacts.coerce, PG.bind_err in Hc. cbn [Booksonix.p_sku Booksonix.p_isbn] in Hc.
    repeat case_match; simplify_eq. cbn [BooksonixFacts.v_isbn].
    split; [split | exact I].
    + eapply varchar_nonempty; [| eassumption | exact Hs1]. lia.
    + eapply varchar_keeps; eassumption.
Qed.

Definition store_clean (db : Booksonix.store) : Prop :=
  forall k x, db !! k = Some x -> key_ok k /\ isbn_ok (Booksonix.isbn x).

Lemma step_store_clean (t : Z) (db : Booksonix.store) (c : Booksonix.counters) (r : row) :
  store_clean db -> store_clean (Booksonix.step t (db, c) r).1.
Proof.
  intros Hdb. rewrite BooksonixFacts.step_effect.
  destruct (BooksonixFacts.effect_of r) as [| | k v] eqn:Er; [exact Hdb | exact Hdb |].
  cbn [fst]. intros k' x Hx.
  destruct (effect_clean r k v Er) as [Hk Hv].
  destruct (String.eqb_spec k k') as [<- | Hne].
  - rewrite lookup_insert_eq in Hx. injection Hx as <-. split; [exact Hk |].
    destruct (db !! k) as [old |] eqn:Ho; [| exact Hv].
    cbn. destruct (BooksonixFacts.v_isbn v) as [i |].
    + destruct (String.eqb_spec i "") as [-> | _]; [exact (proj2 (Hdb k old Ho)) | exact Hv].
    + exact (proj2 (Hdb k old Ho)).
  - rewrite lookup_insert_ne in Hx by exact Hne. exact (Hdb k' x Hx).
Qed.

(** The Booksonix upload only stores SKUs that are non-empty and free of
    hyphens, and ISBNs that are either absent or non-empty and free of
    hyphens: a stored ISBN is never the empty string, since an incoming
    ISBN that is empty after cleaning is sent as NULL and the stored one
    is kept. *)
Theorem booksonix_store_clean (clock : nat -> Z) (data : list row) (db : Booksonix.store) :
  store_clean db -> store_clean (Booksonix.ingest clock data db).1.
Proof.
  unfold Booksonix.ingest. generalize Booksonix.zero, 0%nat. revert db.
  induction data as [| r data IH]; intros db c i Hdb; [exact Hdb |].
  cbn [Booksonix.ingest_from]. destruct (Booksonix.step (clock i) (db, c) r) as [db' c'] eqn:Hs.
  apply IH. change db' with (db', c').1. rewrite <- Hs. apply step_store_clean, Hdb.
Qed.

(** A stored record with an ISBN, and a row for its SKU whose ISBN cell
    is a lone hyphen, empty after cleaning: the stored ISBN is kept. *)
Lemma booksonix_store_clean_witness :
  store_clean (Booksonix.ingest BooksonixFacts.sample_clock
                 [ {[ "SKU" := CStr "ABC-123"; "ISBN" := CStr "-" ]} ]
                 {[ "ABC123" := BooksonixFacts.stored_book ]}).1
  /\ (Booksonix.isbn <$> (Booksonix.ingest BooksonixFacts.sample_clock
                            [ {[ "SKU" := CStr "ABC-123"; "ISBN" := CStr "-" ]} ]
                            {[ "ABC123" := BooksonixFacts.stored_book ]}).1 !! "ABC123")
     = Some (Some "9781234567897").
Proof.
  split; [| vm_compute; reflexivity].
  apply booksonix_store_clean. intros k x Hx. apply lookup_singleton_Some in Hx as [<- <-].
  unfold key_ok, isbn_ok, no_hyphen. cbn.
  split; split; try discriminate; repeat constructor; discriminate.
Defined.

Definition sale_ok (x : Gazelle.record) : Prop :=
  Gazelle.order_ref x <> "" /\ Gazelle.customer_name x <> "" /\ no_hyphen (Gazelle.isbn13 x).

Lemma to_record_clean (p : Gazelle.params) (x : Gazelle.record) :
  GazelleFacts.to_record p = inl x ->
  Gazelle.p_order_ref p <> "" -> Gazelle.p_customer_name p <> "" ->
  no_hyphen (Gazelle.p_isbn13 p) -> sale_ok x.
Proof.
  intros Hr Ho Hc Hi. unfold GazelleFacts.to_record, PG.bind_err in Hr.
  repeat case_match; simplify_eq. unfold sale_ok; cbn.
  split; [| split].
  - eapply varchar_nonempty; [| eassumption | exact Ho]. lia.
  - eapply varchar_nonempty; [| eassumption | exact Hc]. lia.
  - eapply varchar_keeps; eassumption.
Qed.

Lemma inserted_clean (data : list row) : Forall sale_ok (GazelleFacts.inserted data).
Proof.
  induction data as [| r data IH]; [constructor |].
  unfold GazelleFacts.inserted. cbn [flat_map]. fold (GazelleFacts.inserted data).
  destruct (String.eqb_spec (Gazelle.p_order_ref (Gazelle.normalize r)) "") as [_ | Ho];
    [exact IH |].
  destruct (String.eqb_spec (Gazelle.p_customer_name (Gazelle.normalize r)) "") as [_ | Hc];
    [exact IH |].
  cbn [orb]. destruct (GazelleFacts.to_record (Gazelle.normalize r)) as [x |] eqn:Hr; [| exact IH].
  constructor; [| exact IH].
  apply (to_record_clean _ _ Hr Ho Hc).
  apply trim_no_hyphen, remove_hyphen.
Qed.

(** Every record the Gazelle upload appends has a non-empty order
    reference and customer name and an ISBN-13 without hyphens. *)
Theorem gazelle_table_clean (data : list row) (db : Gazelle.table) :
  Forall sale_ok db -> Forall sale_ok (Gazelle.ingest data db).1.
Proof.
  intros Hdb. unfold Gazelle.ingest.
  destruct (GazelleFacts.ingest_from_inserted 0 data db Gazelle.zero) as (H1 & _).
  rewrite H1. apply Forall_app_2; [exact Hdb | apply inserted_clean].
Qed.

Lemma gazelle_table_clean_witness :
  Forall sale_ok (Gazelle.ingest [ {[ "Order Ref" := CStr "SO-1"; "Customer Name" := CStr "Bookshop";
                                      "ISBN-13" := CStr "978-1-234-56789-7" ]} ] []).1.
Proof. apply gazelle_table_clean. constructor. Defined.

End CleanFacts.

Module PagingFacts.
Import Paging.

Lemma digits_value_app (l1 l2 : list ascii) :
  Num.digits_value (l1 ++ l2) = Num.digits_value l1 * 10 ^ Z.of_nat (List.length l2) + Num.digits_value l2.
Proof.
  unfold Num.digits_value. rewrite fold_left_app.
  generalize (fold_left (fun acc c => acc * 10 + Str.digit_val c) l1 0) as a.
  assert (H : forall a b, fold_left (fun acc c => acc * 10 + Str.digit_val c) l2 (a + b)
                = a * 10 ^ Z.of_nat (List.length l2)
                  + fold_left (fun acc c => acc * 10 + Str.digit_val c) l2 b).
  { induction l2 as [| c l2 IH]; intros a b; cbn [fold_left List.length].
    - cbn. lia.
    - replace ((a + b) * 10 + Str.digit_val c) with (a * 10 + (b * 10 + Str.digit_val c)) by lia.
      rewrite IH. rewrite Nat2Z.inj_succ, Z.pow_succ_r by lia. lia. }
  intros a. rewrite <- H. f_equal. lia.
Qed.

Lemma digit_char (n : Z) :
  0 <= n < 10 ->
  Str.is_digit (ascii_of_nat (Z.to_nat (48 + n))) = true
  /\ Str.digit_val (ascii_of_nat (Z.to_nat (48 + n))) = n.
Proof.
  intros Hn.
  destruct (Z_of_nat_complete_inf n) as [k ->]; [lia |].
  assert (Hk : (k < 10)%nat) by lia. clear Hn.
  do 10 (destruct k as [| k]; [split; reflexivity |]). lia.
Qed.

Lemma digits_aux_spec (fuel : nat) (n : Z) (acc : list ascii) :
  (0 < fuel)%nat -> 0 <= n < 10 ^ Z.of_nat fuel ->
  Forall (fun c => Str.is_digit c = true) acc ->
  Forall (fun c => Str.is_digit c = true) (Str.digits_aux fuel n acc)
  /\ Num.digits_value (Str.digits_aux fuel n acc)
     = n * 10 ^ Z.of_nat (List.length acc) + Num.digits_value acc
  /\ (List.length acc < List.length (Str.digits_aux fuel n acc))%nat.
Proof.
  revert n acc. induction fuel as [| f IH]; intros n acc Hf Hn Hacc.
  - lia.
  - cbn [Str.digits_aux].
    assert (Hm : 0 <= n mod 10 < 10) by (apply Z.mod_pos_bound; lia).
    destruct (digit_char (n mod 10) Hm) as [Hd Hv].
    assert (Hacc' : Forall (fun c => Str.is_digit c = true)
                      (ascii_of_nat (Z.to_nat (48 + n mod 10)) :: acc)) by (constructor; assumption).
    assert (Hval : Num.digits_value (ascii_of_nat (Z.to_nat (48 + n mod 10)) :: acc)
                   = n mod 10 * 10 ^ Z.of_nat (List.length acc) + Num.digits_value acc).
    { change (ascii_of_nat (Z.to_nat (48 + n mod 10)) :: acc)
        with ([ascii_of_nat (Z.to_nat (48 + n mod 10))] ++ acc).
      rewrite digits_value_app. unfold Num.digits_value at 1. cbn [fold_left]. rewrite Hv. lia. }
    destruct (Z.ltb_spec n 10) as [Hlt | Hge].
    + rewrite (Z.mod_small n 10) in Hval at 2 by lia.
      split; [exact Hacc' | split; [exact Hval | cbn; lia]].
    + assert (Hq : 0 <= n / 10 < 10 ^ Z.of_nat f).
      { rewrite Nat2Z.inj_succ, Z.pow_succ_r in Hn by lia.
        split; [apply Z.div_pos; lia | apply Z.div_lt_upper_bound; lia]. }
      assert (Hf' : (0 < f)%nat) by (destruct f; [cbn in Hn; lia | lia]).
      destruct (IH (n / 10) _ Hf' Hq Hacc') as (H1 & H2 & H3).
      split; [exact H1 | split; [| cbn in H3 |- *; lia]].
      rewrite H2, Hval. cbn [List.length]. rewrite Nat2Z.inj_succ, Z.pow_succ_r by lia.
      rewrite (Z.div_mod n 10) at 3 by lia. lia.
Qed.

(** [String(n)] of a non-negative integer is its decimal digits. *)
Lemma digits_spec (n : Z) :
  0 <= n ->
  Forall (fun c => Str.is_digit c = true) (Str.digits n)
  /\ Num.digits_value (Str.digits n) = n /\ Str.digits n <> [].
Proof.
  intros Hn. unfold Str.digits.
  assert (Hf : 0 <= n < 10 ^ Z.of_nat (S (Z.to_nat (Z.log2 n)))).
  { split; [exact Hn |].
    destruct (Z.eq_dec n 0) as [-> | Hne]; [cbn; lia |].
    assert (H2 : 2 ^ Z.log2 n <= n < 2 ^ Z.succ (Z.log2 n)) by (apply Z.log2_spec; lia).
    destruct H2 as [_ H2].
    rewrite Nat2Z.inj_succ, Z2Nat.id by apply Z.log2_nonneg.
    eapply Z.lt_le_trans; [exact H2 |]. apply Z.pow_le_mono_l. lia. }
  destruct (digits_aux_spec (S (Z.to_nat (Z.log2 n))) n [] ltac:(lia) Hf ltac:(constructor))
    as (H1 & H2 & H3).
  split; [exact H1 | split].
  - rewrite H2. cbn. lia.
  - intros E. rewrite E in H3. cbn in H3. lia.
Qed.

Lemma take_digits_all (l : list ascii) :
  Forall (fun c => Str.is_digit c = true) l -> Num.take_digits l = (l, []).
Proof.
  induction l as [| c l IH]; intros H; [reflexivity |].
  inversion H as [| ? ? Hc Hl]; subst. cbn. rewrite Hc, (IH Hl). reflexivity.
Qed.

Lemma number_to_string_int (n : Z) :
  0 <= n -> number_to_string n 0 = string_of_list_ascii (Str.digits n).
Proof.
  intros Hn. unfold number_to_string. cbn [Z.of_nat Z.pow].
  rewrite Z.abs_eq, Z.div_1_r, Z.mod_1_r by exact Hn. cbn.
  replace (n <? 0) with false by (symmetry; apply Z.ltb_ge; exact Hn). reflexivity.
Qed.

(** Doubles: integers below [2^53] are exact; from [2^53] on, rounding
    never goes below [2^53]. *)
Lemma round_small (z : Z) : Z.abs z < 2 ^ 53 -> round z = Fin z.
Proof.
  intros Hz. unfold round.
  replace (Z.abs z <? 2 ^ 53) with true by (symmetry; apply Z.ltb_lt; exact Hz).
  assert (Hb : 2 ^ 53 < 2 ^ 1024) by (apply Z.pow_lt_mono_r; lia).
  replace (2 ^ 1024 <=? Z.abs z) with false by (symmetry; apply Z.leb_gt; lia).
  f_equal. destruct (Z.ltb_spec z 0); lia.
Qed.

Lemma round_big (c r : Z) : 2 ^ 53 <= c -> round c = Fin r -> 2 ^ 53 <= r.
Proof.
  intros Hc H. unfold round in H.
  rewrite Z.abs_eq in H by lia.
  replace (c <? 2 ^ 53) with false in H by (symmetry; apply Z.ltb_ge; lia).
  replace (c <? 0) with false in H by (symmetry; apply Z.ltb_ge; lia).
  assert (Hl : 53 <= Z.log2 c).
  { rewrite <- (Z.log2_pow2 53) by lia. apply Z.log2_le_mono. exact Hc. }
  assert (Hs : 2 ^ Z.log2 c <= c) by (apply Z.log2_spec; lia).
  assert (H53 : 2 ^ 53 <= 2 ^ Z.log2 c) by (apply Z.pow_le_mono_r; lia).
  set (e := Z.log2 c - 52) in H.
  assert (He : 2 ^ Z.log2 c = 2 ^ 52 * 2 ^ e).
  { unfold e. rewrite <- Z.pow_add_r by lia. f_equal. lia. }
  assert (Hpe : 0 < 2 ^ e) by (apply Z.pow_pos_nonneg; lia).
  assert (Hq : 2 ^ 52 <= c / 2 ^ e) by (apply Z.div_le_lower_bound; lia).
  assert (Hqe : 2 ^ 52 * 2 ^ e <= c / 2 ^ e * 2 ^ e) by (apply Z.mul_le_mono_nonneg_r; lia).
  destruct (_ || _) in H;
    (destruct (2 ^ 1024 <=? _); [discriminate | injection H as <-]); nia.
Qed.

Lemma fin_eqb_true (x : number) (a : Z) : fin_eqb x a = true -> x = Fin a.
Proof. destruct x; cbn; [intros H; apply Z.eqb_eq in H; subst; reflexivity | discriminate..]. Qed.

Lemma div_pow_nonneg (a m : Z) : 0 <= a -> 0 <= a / 10 ^ m.
Proof.
  intros Ha. destruct (Z.eq_dec (10 ^ m) 0) as [E | E].
  - rewrite E, Z.div_0_r. lia.
  - apply Z.div_pos; [exact Ha |]. assert (0 <= 10 ^ m) by (apply Z.pow_nonneg; lia). lia.
Qed.

(** The digits [toString] picks denote [a], or a value that rounds to [a]. *)
Lemma shortest_from_spec (fuel : nat) (a m s m' : Z) :
  0 <= a -> shortest_from fuel a m = (s, m') ->
  0 <= s * 10 ^ m' /\ (s * 10 ^ m' = a \/ round (s * 10 ^ m') = Fin a).
Proof.
  intros Ha. revert m. induction fuel as [| f IH]; intros m H.
  - cbn in H. injection H as <- <-. split; [lia | left; lia].
  - revert H. cbn [shortest_from]. cbv zeta.
    assert (H1 := div_pow_nonneg a m Ha).
    assert (Hp : 0 <= 10 ^ m) by (apply Z.pow_nonneg; lia).
    destruct (fin_eqb (round (a / 10 ^ m * 10 ^ m)) a) eqn:E1;
      destruct (fin_eqb (round ((a / 10 ^ m + 1) * 10 ^ m)) a) eqn:E2; cbn [andb];
      repeat match goal with
             | |- context [if ?b then _ else _] =>
                 lazymatch b with true => fail | false => fail | _ => destruct b end
             end;
      first [ intros H; injection H as <- <-; split; [nia | right; apply fin_eqb_true; assumption]
            | apply IH ].
Qed.

(** A decimal rendering has at most [j] digits below [10^j]. *)
Lemma digits_aux_len (fuel : nat) (n : Z) (acc : list ascii) (j : Z) :
  1 <= j -> 0 <= n < 10 ^ j ->
  Z.of_nat (List.length (Str.digits_aux fuel n acc)) <= Z.of_nat (List.length acc) + j.
Proof.
  revert n acc j. induction fuel as [| f IH]; intros n acc j Hj Hn; cbn [Str.digits_aux]; [lia |].
  destruct (Z.ltb_spec n 10) as [Hlt | Hge]; [cbn [List.length]; lia |].
  assert (Hj' : 1 <= j - 1).
  { destruct (Z.le_gt_cases j 1) as [Hle | Hgt]; [| lia].
    assert (10 ^ j <= 10 ^ 1) by (apply Z.pow_le_mono_r; lia). cbn in *. lia. }
  assert (Hq : 0 <= n / 10 < 10 ^ (j - 1)).
  { split; [apply Z.div_pos; lia |]. apply Z.div_lt_upper_bound; [lia |].
    rewrite <- Z.pow_succ_r by lia. replace (Z.succ (j - 1)) with j by lia. lia. }
  specialize (IH (n / 10) (ascii_of_nat (Z.to_nat (48 + n mod 10)) :: acc) (j - 1) Hj' Hq).
  cbn [List.length] in IH. lia.
Qed.

Lemma dec_len_small (a : Z) : 0 <= a < 2 ^ 53 -> dec_len a <= 16.
Proof.
  intros Ha. unfold dec_len, Str.digits.
  assert (H := digits_aux_len (S (Z.to_nat (Z.log2 a))) a [] 16 ltac:(lia)
                 ltac:(split; [lia | eapply Z.lt_le_trans; [apply Ha | vm_compute; discriminate]])).
  cbn [List.length] in H. lia.
Qed.

Lemma shortest_small (a : Z) : 0 < a < 2 ^ 53 -> shortest a = (fst (shortest a), snd (shortest a))
  /\ fst (shortest a) * 10 ^ snd (shortest a) = a.
Proof.
  intros Ha. split; [destruct (shortest a); reflexivity |].
  destruct (shortest a) as [s m] eqn:E. cbn [fst snd].
  destruct (shortest_from_spec _ a _ s m ltac:(lia) E) as [Hn [Heq | Hr]]; [exact Heq |].
  destruct (Z.lt_ge_cases (s * 10 ^ m) (2 ^ 53)) as [Hlt | Hge].
  - rewrite round_small in Hr by lia. injection Hr as Hr. exact Hr.
  - apply round_big in Hr; [lia | exact Hge].
Qed.

(** The digits of a non-negative integer: no white space, no sign, all
    digits, their value. *)
Lemma digits_plain (n : Z) :
  0 <= n ->
  Str.drop_ws (Str.digits n) = Str.digits n
  /\ Num.take_sign (Str.digits n) = (false, Str.digits n)
  /\ Num.take_digits (Str.digits n) = (Str.digits n, [])
  /\ Str.digits n <> []
  /\ Num.digits_value (Str.digits n) = n.
Proof.
  intros Hn. destruct (digits_spec n Hn) as (Hd & Hv & Hne).
  split; [| split; [| split; [apply take_digits_all, Hd | split; [exact Hne | exact Hv]]]].
  - destruct (Str.digits n) as [| c l]; [contradiction |].
    apply Forall_cons in Hd as [Hc _].
    unfold Str.is_digit in Hc. apply andb_true_iff in Hc as [H1 H2]. apply Z.leb_le in H1, H2.
    apply BooksonixFacts.drop_ws_ascii; [| lia].
    apply Bool.not_true_iff_false. intros H. unfold Str.is_ws in H.
    repeat rewrite ?orb_true_iff, ?Nat.eqb_eq in H. lia.
  - destruct (Str.digits n) as [| c l]; [contradiction |].
    apply Forall_cons in Hd as [Hc _].
    assert (Hsign : Ascii.eqb c "-" = false /\ Ascii.eqb c "+" = false).
    { split; destruct (Ascii.eqb_spec c "-"), (Ascii.eqb_spec c "+"); subst;
        try reflexivity; discriminate Hc. }
    cbn [Num.take_sign]. rewrite (proj1 Hsign), (proj2 Hsign). reflexivity.
Qed.

(** [String(z)] of a double below [2^53] in magnitude is its decimal
    digits; BIGINT reads it back as [z]. *)
Lemma int8_to_string (z : Z) : Z.abs z < 2 ^ 53 -> int8_in (to_string (Fin z)) = inl z.
Proof.
  intros Hz. destruct (Z.eq_dec z 0) as [-> | Hne]; [reflexivity |].
  unfold to_string. replace (z =? 0) with false by (symmetry; apply Z.eqb_neq; exact Hne).
  destruct (shortest_small (Z.abs z) ltac:(lia)) as [_ Hs].
  destruct (shortest (Z.abs z)) as [s m]. cbn [fst snd] in Hs. rewrite Hs.
  replace (dec_len (Z.abs z) <=? 21) with true
    by (symmetry; apply Z.leb_le; pose proof (dec_len_small (Z.abs z)); lia).
  destruct (digits_plain (Z.abs z) ltac:(lia)) as (Hw & Hsg & Htd & Hne' & Hv).
  assert (Hr : - 2 ^ 63 <= z < 2 ^ 63).
  { assert (2 ^ 53 < 2 ^ 63) by (apply Z.pow_lt_mono_r; lia). lia. }
  unfold int8_in. rewrite GazelleFacts.list_ascii_of_string_app,
    list_ascii_of_string_of_list_ascii.
  destruct (Z.ltb_spec z 0) as [Hneg | Hpos].
  - cbn [list_ascii_of_string app]. unfold Str.drop_ws.
    rewrite BooksonixFacts.drop_ws_ascii by (reflexivity || (apply Nat.ltb_lt; reflexivity)).
    cbn [Num.take_sign]. cbn [Ascii.eqb Bool.eqb]. rewrite Htd.
    destruct (Str.digits (Z.abs z)); [contradiction |]. cbn [orb negb forallb].
    rewrite Hv. replace (- Z.abs z) with z by lia.
    replace ((z <? - 2 ^ 63) || (2 ^ 63 <=? z)) with false
      by (symmetry; apply orb_false_iff; split; [apply Z.ltb_ge | apply Z.leb_gt]; lia).
    reflexivity.
  - cbn [list_ascii_of_string app]. rewrite Hw, Hsg, Htd.
    destruct (Str.digits (Z.abs z)); [contradiction |]. cbn [orb negb forallb].
    rewrite Hv. replace (Z.abs z) with z by lia.
    replace ((z <? - 2 ^ 63) || (2 ^ 63 <=? z)) with false
      by (symmetry; apply orb_false_iff; split; [apply Z.ltb_ge | apply Z.leb_gt]; lia).
    reflexivity.
Qed.





Lemma int_or_nonzero (q : option string) (d L : Z) : 0 < d -> int_or q d = Fin L -> L <> 0.
Proof.
  intros Hd. unfold int_or. destruct (parse_int_auto q) as [z | neg |]; cbn [truthy].
  - destruct (Z.eqb_spec z 0); cbn [negb]; intros H; injection H as <-; lia.
  - discriminate.
  - intros H; injection H as <-; lia.
Qed.



(** With a positive default limit, and a limit [L] and a page [P] read
    from the query as finite numbers with [|L| < 2^53] and
    [|(P - 1) * L| < 2^53] (the range where the double arithmetic is
    exact), the listing fails with a database error exactly when [L] or
    [P] is negative ([OFFSET] or [LIMIT] below 0); an absent, empty, zero
    or non-numeric limit or page takes its default. *)
Theorem page_error_iff {A} (dl : Z) (lq pq : option string) (rows : list A) (L P : Z) :
  0 < dl ->
  int_or lq dl = Fin L ->
  int_or pq 1 = Fin P ->
  Z.abs L < 2 ^ 53 ->
  Z.abs ((P - 1) * L) < 2 ^ 53 ->
  (records dl lq pq rows = DatabaseError <-> L < 0 \/ P < 0).
Proof.
  intros Hdl HL HP HLb HOb.
  assert (HL0 := int_or_nonzero lq dl L Hdl HL).
  assert (HP0 := int_or_nonzero pq 1 P ltac:(lia) HP).
  assert (HPb : Z.abs (P - 1) < 2 ^ 53).
  { rewrite Z.abs_mul in HOb. assert (1 <= Z.abs L) by lia. nia. }
  unfold records. rewrite HL, HP. cbn [sub mul].
  rewrite round_small by exact HPb. cbn [mul]. rewrite round_small by exact HOb.
  unfold limit_offset. rewrite !int8_to_string by assumption. cbn [PG.bind_err].
  destruct (Z.ltb_spec ((P - 1) * L) 0) as [Ho | Ho].
  - split; [intros _ | reflexivity]. nia.
  - destruct (Z.ltb_spec L 0) as [Hl | Hl].
    + split; [intros _; lia | reflexivity].
    + split; [discriminate | intros [H | H]; [lia | nia]].
Qed.

Lemma page_error_iff_witness :
  (booksonix_records (Some "10") (Some "-1") [1; 2; 3] = DatabaseError
   <-> 10 < 0 \/ -1 < 0).
Proof.
  apply (page_error_iff 500 (Some "10") (Some "-1") [1; 2; 3] 10 (-1));
    [lia | vm_compute; reflexivity | vm_compute; reflexivity | lia | lia].
Defined.

(** The largest BIGINT as the limit: [parseInt] rounds it to the double
    [2^63], which [pg] sends as ["9223372036854776000"], outside the
    BIGINT range, so the listing answers with a database error, on any
    page and whatever the rows. *)
Theorem limit_max_bigint_fails {A} (pq : option string) (rows : list A) :
  int_or (Some "9223372036854775807") 500 = Fin (2 ^ 63)
  /\ to_string (Fin (2 ^ 63)) = "9223372036854776000"
  /\ booksonix_records (Some "9223372036854775807") pq rows = DatabaseError.
Proof.
  split; [vm_compute; reflexivity | split; [vm_compute; reflexivity |]].
  unfold booksonix_records, records, limit_offset.
  replace (to_string (int_or (Some "9223372036854775807") 500)) with "9223372036854776000"
    by (vm_compute; reflexivity).
  replace (int8_in "9223372036854776000")
    with (inr {| PG.code := "22003"; PG.message := "value out of range for type bigint" |}
          : Z + PG.error) by (vm_compute; reflexivity).
  reflexivity.
Qed.

End PagingFacts.

(* ------------------------------------------------------------------ *)
(** ** User management *)

Module UsersFacts.
Import Json Users.

Definition has_admin (db : gmap Z user) : Prop :=
  exists j u, db !! j = Some u /\ is_admin u = true.

(** The constraints of the [users] schema on a table. *)
Definition users_ok (db : gmap Z user) : Prop :=
  (forall j v, db !! j = Some v ->
     (String.length (username v) <= 100)%nat /\ (String.length (email v) <= 255)%nat
     /\ (String.length (password v) <= 255)%nat
     /\ (forall r, role v = Some r -> (String.length r <= 50)%nat))
  /\ (forall j j' v v', j <> j' -> db !! j = Some v -> db !! j' = Some v' ->
        username v <> username v' /\ email v <> email v').

Lemma varchar_short (n : nat) (s : string) :
  (String.length s <= n)%nat -> PG.varchar n s = inl s.
Proof.
  intros H. unfold PG.varchar.
  assert (Hc : (PG.char_length (list_ascii_of_string s) <= String.length s)%nat).
  { unfold PG.char_length. rewrite <- CleanFacts.length_list_ascii. apply filter_length_le. }
  replace (PG.char_length (list_ascii_of_string s) <=? n)%nat with true
    by (symmetry; apply Nat.leb_le; lia).
  reflexivity.
Qed.

Lemma varchar_opt_none (n : nat) (x : option string) :
  varchar_opt n None = inl x -> x = None.
Proof. cbn. congruence. Qed.

Lemma varchar_opt_some (n : nat) (s : string) (x : option string) :
  varchar_opt n (Some s) = inl x -> x <> None.
Proof.
  unfold varchar_opt, PG.bind_err. destruct (PG.varchar n s); congruence.
Qed.

Lemma conflicts_false (k : Z) (u : user) (db : gmap Z user) :
  (forall j v, db !! j = Some v -> j <> k -> username v <> username u /\ email v <> email u) ->
  conflicts k u db = false.
Proof.
  intros H. unfold conflicts.
  destruct (existsb _ _) eqn:E; [| reflexivity].
  apply existsb_exists in E as [[j v] [Hin Hf]].
  apply list_elem_of_In, elem_of_map_to_list in Hin.
  apply andb_prop in Hf as [Hne Hf]. apply negb_true_iff, Z.eqb_neq in Hne.
  destruct (H j v Hin Hne) as [Hu He].
  apply orb_true_iff in Hf as [Hf | Hf]; apply String.eqb_eq in Hf; contradiction.
Qed.

(** What a successful write stores. *)
Lemma write_row_inl (fresh : bool) (k : Z) (u e p r : option string)
    (db db' : gmap Z user) :
  write_row fresh k u e p r db = inl db' ->
  exists row, db' = <[k := row]> db
    /\ (fresh = true -> db !! k = None)
    /\ (r = None -> role row = None)
    /\ (r <> None -> role row <> None)
    /\ (forall s, r = Some s -> (String.length s <= 50)%nat -> role row = Some s).
Proof.
  intros H. unfold write_row, PG.bind_err in H.
  destruct (varchar_opt 100 u) as [u1 |] eqn:Hu; [| discriminate].
  destruct (varchar_opt 255 e) as [e1 |] eqn:He; [| discriminate].
  destruct (varchar_opt 255 p) as [p1 |] eqn:Hp; [| discriminate].
  destruct (varchar_opt 50 r) as [r1 |] eqn:Hr; [| discriminate].
  destruct (not_null "username" u1) as [u2 |]; [| discriminate].
  destruct (not_null "email" e1) as [e2 |]; [| discriminate].
  destruct (not_null "password" p1) as [p2 |]; [| discriminate].
  match type of H with
  | (if ?c then _ else _) = _ => destruct c eqn:Hc; [discriminate |]
  end.
  injection H as <-. eexists. split; [reflexivity |]. cbn [role].
  apply orb_false_iff in Hc as [Hc _].
  split; [| split; [| split]].
  - intros ->. cbn in Hc. destruct (db !! k) eqn:Hk; [| reflexivity].
    exfalso. rewrite bool_decide_eq_true_2 in Hc; [discriminate | eauto].
  - intros ->. eapply varchar_opt_none; exact Hr.
  - intros Hn. destruct r as [s |]; [| contradiction]. eapply varchar_opt_some; exact Hr.
  - intros s -> Hs. cbn in Hr. rewrite varchar_short in Hr by exact Hs.
    cbn in Hr. congruence.
Qed.

(** A write fails when the username or the email is NULL. *)
Lemma write_row_null (fresh : bool) (k : Z) (u e p r : option string) (db : gmap Z user) :
  u = None \/ e = None -> exists err, write_row fresh k u e p r db = inr err.
Proof.
  intros Hn. unfold write_row, PG.bind_err.
  destruct (varchar_opt 100 u) as [u1 |] eqn:Hu; [| eauto].
  destruct (varchar_opt 255 e) as [e1 |] eqn:He; [| eauto].
  destruct (varchar_opt 255 p) as [p1 |]; [| eauto].
  destruct (varchar_opt 50 r) as [r1 |]; [| eauto].
  destruct Hn as [-> | ->].
  - apply varchar_opt_none in Hu as ->. cbn. eauto.
  - apply varchar_opt_none in He as ->.
    destruct (not_null "username" u1); cbn; eauto.
Qed.

Lemma truthy_param (v : option json) :
  truthy v = true -> pg_param v <> None.
Proof. destruct v as [[] |]; cbn; repeat case_match; congruence. Qed.

Lemma unique_or_500_not_success (e : PG.error) : unique_or_500 e <> Success.
Proof. unfold unique_or_500. destruct (String.eqb _ _); discriminate. Qed.

(** [DELETE /api/users/:id] never removes the last admin: if the table
    has a user whose role is 'admin' before the request, it has one
    after it, whatever the id and the response. *)
Theorem delete_keeps_admin (int4_in : string -> option Z) (id : string) (db : gmap Z user) :
  has_admin db -> has_admin (delete_user int4_in id db).2.
Proof.
  intros [j [v [Hj Hv]]]. unfold delete_user.
  destruct (int4_in id) as [k |]; [| exists j, v; auto].
  destruct (db !! k) as [u |] eqn:Hk; [| exists j, v; auto].
  destruct (is_admin u && String.eqb (admin_count_except k db) "0") eqn:Hc;
    [exists j, v; auto |].
  cbn [snd]. destruct (is_admin u) eqn:Hu.
  - cbn in Hc. unfold admin_count_except in Hc.
    destruct (List.filter _ (map_to_list db)) as [| [j' v'] rest] eqn:Ef;
      [cbn in Hc; discriminate |].
    assert (Hin : In (j', v') (List.filter (fun '(j, v) => is_admin v && negb (j =? k))
                                           (map_to_list db)))
      by (rewrite Ef; left; reflexivity).
    apply filter_In in Hin as [Hin Hf]. apply andb_prop in Hf as [Ha Hne].
    apply negb_true_iff, Z.eqb_neq in Hne.
    exists j', v'. split; [| exact Ha].
    rewrite lookup_delete_ne by congruence.
    apply elem_of_map_to_list, list_elem_of_In. exact Hin.
  - exists j, v. split; [| exact Hv].
    rewrite lookup_delete_ne; [exact Hj |]. intros ->. congruence.
Qed.

Definition two_admins : gmap Z user :=
  <[1 := {| username := "admin"; email := "admin@antennebooks.com"; password := "h1";
            role := Some "admin" |}]>
  {[2 := {| username := "ann"; email := "ann@x.org"; password := "h2"; role := Some "admin" |}]}.

Lemma delete_keeps_admin_witness :
  has_admin (delete_user Num.parse_int "1" two_admins).2.
Proof.
  apply (delete_keeps_admin Num.parse_int "1" two_admins).
  exists 1, {| username := "admin"; email := "admin@antennebooks.com"; password := "h1";
               role := Some "admin" |}.
  split; vm_compute; reflexivity.
Defined.

(** The body of a [PUT] that resends a user's username and email and
    nothing else. *)
Definition names_only (u : user) : body :=
  {| b_username := Some (JsStr (username u)); b_email := Some (JsStr (email u));
     b_password := None; b_role := None |}.

(** [PUT /api/users/:id] has no last-admin guard: on a table that keeps
    the schema's constraints, resending the only admin's username and
    email without a role succeeds, sets that user's role to NULL and
    leaves the table without any admin. *)
Theorem put_user_removes_last_admin (hash : string -> string) (int4_in : string -> option Z)
    (id : string) (k : Z) (u : user) (db : gmap Z user) :
  users_ok db -> int4_in id = Some k -> db !! k = Some u -> is_admin u = true ->
  (forall j v, db !! j = Some v -> is_admin v = true -> j = k) ->
  put_user hash int4_in id (names_only u) db
    = (Success, <[k := {| username := username u; email := email u;
                          password := password u; role := None |}]> db)
  /\ has_admin db
  /\ ~ has_admin (put_user hash int4_in id (names_only u) db).2.
Proof.
  intros [Hlen Huniq] Hid Hk Ha Honly.
  destruct (Hlen k u Hk) as [Hl1 [Hl2 [Hl3 _]]].
  assert (Hput : put_user hash int4_in id (names_only u) db
    = (Success, <[k := {| username := username u; email := email u;
                          password := password u; role := None |}]> db)).
  { unfold put_user. cbn [truthy names_only b_password b_username b_email b_role].
    rewrite Hid, Hk. unfold write_row. cbn [pg_param to_string].
    unfold varchar_opt, PG.bind_err.
    rewrite !varchar_short by assumption. cbn [not_null varchar_opt].
    rewrite conflicts_false; [reflexivity |].
    intros j v Hj Hne. cbn [username email].
    exact (Huniq j k v u Hne Hj Hk). }
  split; [exact Hput | split; [exists k, u; auto |]].
  rewrite Hput. cbn [snd]. intros [j [v [Hj Hv]]].
  destruct (decide (j = k)) as [-> | Hne].
  - rewrite lookup_insert_eq in Hj. injection Hj as <-. discriminate.
  - rewrite lookup_insert_ne in Hj by congruence.
    apply Hne, (Honly j v Hj Hv).
Qed.

Definition one_admin : gmap Z user :=
  <[1 := {| username := "admin"; email := "admin@antennebooks.com"; password := "h1";
            role := Some "admin" |}]>
  {[2 := {| username := "ed"; email := "ed@x.org"; password := "h2"; role := Some "editor" |}]}.

Lemma put_user_removes_last_admin_witness :
  exists u, one_admin !! 1 = Some u /\
  put_user (fun s => s) Num.parse_int "1" (names_only u) one_admin
    = (Success, <[1 := {| username := username u; email := email u;
                          password := password u; role := None |}]> one_admin)
  /\ has_admin one_admin
  /\ ~ has_admin (put_user (fun s => s) Num.parse_int "1" (names_only u) one_admin).2.
Proof.
  eexists. split; [vm_compute; reflexivity |].
  apply (put_user_removes_last_admin (fun s => s) Num.parse_int "1" 1 _ one_admin).
  - split.
    + intros j v Hj. unfold one_admin in Hj.
      destruct (decide (j = 1)) as [-> | H1];
        [rewrite lookup_insert_eq in Hj | rewrite lookup_insert_ne in Hj by congruence;
         destruct (decide (j = 2)) as [-> | H2];
         [rewrite lookup_singleton_eq in Hj | rewrite lookup_singleton_ne in Hj by congruence]];
        try discriminate; injection Hj as <-; cbn;
        (split; [lia | split; [lia | split; [lia | intros r Hr; injection Hr as <-; cbn; lia]]]).
    + intros j j' v v' Hne Hj Hj'. unfold one_admin in Hj, Hj'.
      destruct (decide (j = 1)) as [-> | H1];
        [rewrite lookup_insert_eq in Hj | rewrite lookup_insert_ne in Hj by congruence;
         destruct (decide (j = 2)) as [-> | H2];
         [rewrite lookup_singleton_eq in Hj | rewrite lookup_singleton_ne in Hj by congruence]];
      (destruct (decide (j' = 1)) as [-> | H1'];
        [rewrite lookup_insert_eq in Hj' | rewrite lookup_insert_ne in Hj' by congruence;
         destruct (decide (j' = 2)) as [-> | H2'];
         [rewrite lookup_singleton_eq in Hj' | rewrite lookup_singleton_ne in Hj' by congruence]]);
        try discriminate; try congruence;
        injection Hj as <-; injection Hj' as <-; cbn; split; discriminate.
  - vm_compute. reflexivity.
  - vm_compute. reflexivity.
  - vm_compute. reflexivity.
  - intros j v Hj Hv. unfold one_admin in Hj.
    destruct (decide (j = 1)) as [-> | H1]; [reflexivity |].
    rewrite lookup_insert_ne in Hj by congruence.
    destruct (decide (j = 2)) as [-> | H2];
      [rewrite lookup_singleton_eq in Hj | rewrite lookup_singleton_ne in Hj by congruence];
      [injection Hj as <-; discriminate | discriminate].
Defined.

(** A [PUT /api/users/:id] whose body has no username or no email
    ([undefined] or [null]) never succeeds and leaves the table as it
    was: both are written to NOT NULL columns on every update. *)
Theorem put_user_needs_names (hash : string -> string) (int4_in : string -> option Z)
    (id : string) (b : body) (db : gmap Z user) :
  pg_param (b_username b) = None \/ pg_param (b_email b) = None ->
  (put_user hash int4_in id b db).2 = db /\ (put_user hash int4_in id b db).1 <> Success.
Proof.
  intros Hn. unfold put_user.
  destruct (if truthy (b_password b) then _ else _) as [np |]; [| split; [reflexivity | discriminate]].
  destruct (int4_in id) as [k |]; [| split; [reflexivity | discriminate]].
  destruct (db !! k) as [old |]; [| split; [reflexivity | discriminate]].
  match goal with
  | |- context [write_row false k ?u ?e ?p ?r db] =>
      destruct (write_row_null false k u e p r db Hn) as [err ->]
  end.
  split; [reflexivity | apply unique_or_500_not_success].
Qed.

Lemma put_user_needs_names_witness :
  (put_user (fun s => s) Num.parse_int "1"
     {| b_username := None; b_email := Some (JsStr "x@y.org");
        b_password := Some (JsStr "pw"); b_role := Some (JsStr "admin") |} one_admin).2 = one_admin
  /\ (put_user (fun s => s) Num.parse_int "1"
     {| b_username := None; b_email := Some (JsStr "x@y.org");
        b_password := Some (JsStr "pw"); b_role := Some (JsStr "admin") |} one_admin).1 <> Success.
Proof.
  apply put_user_needs_names. left. reflexivity.
Defined.

(** A user created by [POST /api/users] gets the next id of the
    sequence, which no stored user holds; the other users are kept as
    they are; and its role is never NULL: 'editor' when the body's role
    is missing or falsy, the given role otherwise. *)
Theorem post_user_created (hash : string -> string) (b : body) (t t' : table) (k : Z) :
  post_user hash b t = (Created k, t') ->
  k = next_id t /\ rows t !! k = None /\ next_id t' = k + 1
  /\ exists u, rows t' = <[k := u]> (rows t)
     /\ role u <> None
     /\ (truthy (b_role b) = false -> role u = Some "editor").
Proof.
  intros H. unfold post_user in H.
  destruct (negb (truthy (b_username b)) || _ || _); [discriminate |].
  destruct (b_password b) as [[] |]; try discriminate.
  set (role' := if truthy (b_role b) then pg_param (b_role b) else Some "editor") in H.
  match type of H with
  | context [write_row true ?k0 ?u ?e ?p ?r ?db] =>
      destruct (write_row true k0 u e p r db) as [db' | err] eqn:W
  end.
  2: { injection H as Hr _. unfold unique_or_500 in Hr.
       destruct (String.eqb _ _); discriminate. }
  injection H as <- <-. cbn [rows next_id].
  destruct (write_row_inl _ _ _ _ _ _ _ _ W) as [row [-> [Hfresh [_ [Hsome Hs]]]]].
  split; [reflexivity | split; [auto | split; [reflexivity |]]].
  exists row. split; [reflexivity | split].
  - apply Hsome. unfold role'. destruct (truthy (b_role b)) eqn:E;
      [apply truthy_param; exact E | discriminate].
  - intros Hf. apply Hs; [unfold role'; rewrite Hf; reflexivity | cbn; lia].
Qed.

Definition admin_table : table := {| rows := one_admin; next_id := 3 |}.

Definition new_editor : body :=
  {| b_username := Some (JsStr "bob"); b_email := Some (JsStr "bob@x.org");
     b_password := Some (JsStr "secret"); b_role := Some (JsStr "") |}.

Lemma post_user_created_witness :
  let t' := (post_user (fun s => s) new_editor admin_table).2 in
  3 = next_id admin_table /\ rows admin_table !! 3 = None /\ next_id t' = 3 + 1
  /\ exists u, rows t' = <[3 := u]> (rows admin_table)
     /\ role u <> None
     /\ (truthy (b_role new_editor) = false -> role u = Some "editor").
Proof.
  apply (post_user_created (fun s => s) new_editor admin_table). vm_compute. reflexivity.
Defined.

End UsersFacts.

(* ------------------------------------------------------------------ *)
(** ** The report query builder *)

Module ReportFacts.
Import Json Report.

Definition starts_nondigit (l : list ascii) : bool :=
  match l with
  | c :: _ => negb (Str.is_digit c)
  | [] => true
  end.

Definition no_dollar (l : list ascii) : bool :=
  forallb (fun c => negb (Ascii.eqb c "$")) l.

Lemma take_digits_fst (c : ascii) (l : list ascii) :
  (Num.take_digits (c :: l)).1 = if Str.is_digit c then c :: (Num.take_digits l).1 else [].
Proof.
  cbn. destruct (Str.is_digit c); [| reflexivity].
  destruct (Num.take_digits l). reflexivity.
Qed.

Lemma take_digits_app (l1 l2 : list ascii) :
  starts_nondigit l2 = true -> (Num.take_digits (l1 ++ l2)).1 = (Num.take_digits l1).1.
Proof.
  intros H. induction l1 as [| c l1 IH].
  - destruct l2 as [| c l2]; [reflexivity |].
    cbn [app]. rewrite take_digits_fst. cbn in H. apply negb_true_iff in H. rewrite H. reflexivity.
  - cbn [app]. rewrite !take_digits_fst, IH. reflexivity.
Qed.

Lemma param_refs_app (l1 l2 : list ascii) :
  starts_nondigit l2 = true -> param_refs (l1 ++ l2) = param_refs l1 ++ param_refs l2.
Proof.
  intros H. induction l1 as [| c l1 IH]; [reflexivity |].
  cbn [app param_refs]. rewrite take_digits_app by exact H.
  destruct (Ascii.eqb c "$"); [destruct (Num.take_digits l1).1 |]; cbn; rewrite IH; reflexivity.
Qed.

Lemma param_refs_no_dollar (l : list ascii) : no_dollar l = true -> param_refs l = [].
Proof.
  induction l as [| c l IH]; intros H; [reflexivity |].
  cbn in H. apply andb_prop in H as [Hc Hl]. apply negb_true_iff in Hc.
  cbn. rewrite Hc. exact (IH Hl).
Qed.

Lemma digits_no_dollar (l : list ascii) :
  Forall (fun c => Str.is_digit c = true) l -> no_dollar l = true.
Proof.
  unfold no_dollar. induction 1 as [| c l Hc _ IH]; [reflexivity |].
  cbn [forallb]. rewrite IH, andb_true_r. apply negb_true_iff.
  destruct (Ascii.eqb_spec c "$"); [subst; discriminate | reflexivity].
Qed.

Lemma placeholder_chars (n : Z) :
  0 <= n -> list_ascii_of_string (placeholder n) = "$"%char :: Str.digits n.
Proof.
  intros Hn. unfold placeholder. rewrite PagingFacts.number_to_string_int by exact Hn.
  change (list_ascii_of_string ("$" ++ string_of_list_ascii (Str.digits n)))
    with ("$"%char :: list_ascii_of_string (string_of_list_ascii (Str.digits n))).
  f_equal. apply list_ascii_of_string_of_list_ascii.
Qed.

Lemma param_refs_placeholder (n : Z) :
  0 <= n -> param_refs (list_ascii_of_string (placeholder n)) = [n].
Proof.
  intros Hn. rewrite placeholder_chars by exact Hn.
  destruct (PagingFacts.digits_spec n Hn) as [Hd [Hv Hne]].
  cbn [param_refs]. replace (Ascii.eqb "$" "$") with true by reflexivity.
  rewrite PagingFacts.take_digits_all by exact Hd. cbn [fst].
  destruct (Str.digits n) as [| c l] eqn:E; [contradiction |].
  cbv beta iota. rewrite Hv, param_refs_no_dollar by (apply digits_no_dollar; exact Hd).
  reflexivity.
Qed.

Fixpoint zrange (i : Z) (n : nat) : list Z :=
  match n with
  | O => []
  | S n => i :: zrange (i + 1) n
  end.

Lemma zrange_seq (s n : nat) : zrange (Z.of_nat s) n = map Z.of_nat (seq s n).
Proof.
  revert s. induction n as [| n IH]; intros s; [reflexivity |].
  cbn. f_equal. rewrite <- IH. f_equal. lia.
Qed.

Lemma imap_placeholder {X} (xs : list X) (i : Z) :
  imap (fun j _ => placeholder (i + Z.of_nat j)) xs = map placeholder (zrange i (List.length xs)).
Proof.
  revert i. induction xs as [| x xs IH]; intros i; [reflexivity |].
  rewrite imap_cons. cbn [List.length zrange map]. f_equal; [f_equal; lia |].
  rewrite <- IH. apply imap_ext. intros j y _. cbn. f_equal. lia.
Qed.

Lemma join_refs (ns : list Z) :
  Forall (fun n => 0 <= n) ns ->
  param_refs (list_ascii_of_string (join "," (map placeholder ns))) = ns.
Proof.
  induction 1 as [| n ns Hn Hns IH]; [reflexivity |].
  destruct ns as [| m ns].
  - cbn [map join]. apply param_refs_placeholder, Hn.
  - change (map placeholder (n :: m :: ns))
      with (placeholder n :: placeholder m :: map placeholder ns).
    change (join "," (placeholder n :: placeholder m :: map placeholder ns))
      with (placeholder n ++ "," ++ join "," (placeholder m :: map placeholder ns))%string.
    rewrite !GazelleFacts.list_ascii_of_string_app.
    rewrite param_refs_app by reflexivity.
    rewrite param_refs_placeholder by exact Hn.
    change (list_ascii_of_string ",") with [","%char]. cbn [app param_refs].
    replace (Ascii.eqb "," "$") with false by reflexivity.
    cbn [map] in IH. rewrite IH. reflexivity.
Qed.

Lemma append_empty_r (s : string) : (s ++ "")%string = s.
Proof.
  induction s as [| c s IH]; [reflexivity |].
  change (String c (s ++ "") = String c s). rewrite IH. reflexivity.
Qed.

Lemma starts_nondigit_app (l1 l2 : list ascii) :
  starts_nondigit l1 = true -> starts_nondigit l2 = true -> starts_nondigit (l1 ++ l2) = true.
Proof. destruct l1; auto. Qed.

Lemma starts_nondigit_placeholder (n : Z) :
  0 <= n -> starts_nondigit (list_ascii_of_string (placeholder n)) = true.
Proof. intros Hn. rewrite placeholder_chars by exact Hn. reflexivity. Qed.

Lemma zrange_nonneg (i : Z) (n : nat) : 0 <= i -> Forall (fun k => 0 <= k) (zrange i n).
Proof.
  revert i. induction n as [| n IH]; intros i Hi; constructor; [lia | apply IH; lia].
Qed.

Lemma starts_nondigit_join (ns : list Z) :
  Forall (fun n => 0 <= n) ns ->
  starts_nondigit (list_ascii_of_string (join "," (map placeholder ns))) = true.
Proof.
  intros H. destruct H as [| n ns Hn _]; [reflexivity |].
  destruct ns as [| m ns].
  - apply starts_nondigit_placeholder, Hn.
  - change (join "," (map placeholder (n :: m :: ns)))
      with (placeholder n ++ "," ++ join "," (map placeholder (m :: ns)))%string.
    rewrite GazelleFacts.list_ascii_of_string_app.
    apply starts_nondigit_app; [apply starts_nondigit_placeholder, Hn | reflexivity].
Qed.

(** The query text built so far and its parameters agree: the
    parameter references are [$1 .. $n] for [n] parameters, and the
    next index is [n + 1]. *)
Definition state_ok (q : string) (ps : list json) (i : Z) : Prop :=
  param_refs (list_ascii_of_string q) = map Z.of_nat (seq 1 (List.length ps))
  /\ i = Z.of_nat (List.length ps) + 1.

Lemma state_literal (q lit : string) (ps : list json) (i : Z) :
  state_ok q ps i ->
  starts_nondigit (list_ascii_of_string lit) = true -> no_dollar (list_ascii_of_string lit) = true ->
  state_ok (q ++ lit) ps i.
Proof.
  intros [Hq Hi] Hs Hd. split; [| exact Hi].
  rewrite GazelleFacts.list_ascii_of_string_app, param_refs_app by exact Hs.
  rewrite (param_refs_no_dollar _ Hd), app_nil_r. exact Hq.
Qed.

Lemma state_placeholder (q lit post : string) (ps ps' : list json) (i : Z) (x : json) :
  state_ok q ps i ->
  starts_nondigit (list_ascii_of_string lit) = true -> no_dollar (list_ascii_of_string lit) = true ->
  starts_nondigit (list_ascii_of_string post) = true -> no_dollar (list_ascii_of_string post) = true ->
  ps' = ps ++ [x] ->
  state_ok (q ++ (lit ++ (placeholder i ++ post))) ps' (i + 1).
Proof.
  intros [Hq Hi] Hs1 Hd1 Hs2 Hd2 ->.
  assert (Hi0 : 0 <= i) by lia.
  split.
  - rewrite !GazelleFacts.list_ascii_of_string_app.
    rewrite (param_refs_app (list_ascii_of_string q))
      by (apply starts_nondigit_app; [exact Hs1 |
          apply starts_nondigit_app; [apply starts_nondigit_placeholder, Hi0 | exact Hs2]]).
    rewrite (param_refs_app (list_ascii_of_string lit))
      by (apply starts_nondigit_app; [apply starts_nondigit_placeholder, Hi0 | exact Hs2]).
    rewrite (param_refs_app _ _ Hs2).
    rewrite (param_refs_no_dollar _ Hd1), (param_refs_no_dollar _ Hd2),
      param_refs_placeholder by exact Hi0.
    rewrite Hq, length_app, seq_app, map_app. cbn. f_equal. f_equal. lia.
  - rewrite length_app. cbn [List.length]. lia.
Qed.

Lemma state_placeholder_end (q lit : string) (ps ps' : list json) (i : Z) (x : json) :
  state_ok q ps i ->
  starts_nondigit (list_ascii_of_string lit) = true -> no_dollar (list_ascii_of_string lit) = true ->
  ps' = ps ++ [x] ->
  state_ok (q ++ (lit ++ placeholder i)) ps' (i + 1).
Proof.
  intros Hs H1 H2 Hp. rewrite <- (append_empty_r (placeholder i)).
  eapply state_placeholder; eauto.
Qed.

Lemma state_titles (q : string) (ps ps' xs : list json) (i : Z) :
  state_ok q ps i ->
  ps' = ps ++ xs ->
  state_ok (q ++ (" AND title IN (" ++
                  (join "," (imap (fun j _ => placeholder (i + Z.of_nat j)) xs) ++ ")")))
           ps' (i + Z.of_nat (List.length xs)).
Proof.
  intros [Hq Hi] ->.
  assert (Hi0 : 0 <= i) by lia.
  rewrite imap_placeholder.
  pose proof (zrange_nonneg i (List.length xs) Hi0) as Hz.
  split.
  - rewrite !GazelleFacts.list_ascii_of_string_app.
    rewrite (param_refs_app (list_ascii_of_string q)) by reflexivity.
    rewrite (param_refs_app (list_ascii_of_string " AND title IN (")).
    2: { apply starts_nondigit_app; [apply starts_nondigit_join, Hz | reflexivity]. }
    rewrite (param_refs_app _ (list_ascii_of_string ")")) by reflexivity.
    rewrite join_refs by exact Hz.
    change (param_refs (list_ascii_of_string " AND title IN (")) with (@nil Z).
    change (param_refs (list_ascii_of_string ")")) with (@nil Z).
    rewrite Hq, app_nil_l, app_nil_r, length_app, seq_app, map_app. f_equal.
    replace i with (Z.of_nat (1 + List.length ps)) by lia.
    rewrite zrange_seq. reflexivity.
  - rewrite length_app. lia.
Qed.

(** [POST /api/generate-report] binds its parameters in the order its
    query refers to them: whatever filters the body sets and however
    many titles it lists, the statement it sends refers to exactly
    [$1, $2, ..., $n], in this order, for its [n] parameters. *)
Theorem report_params_aligned (b : body) (q : string) (ps : list json) :
  build b = inl (q, ps) -> param_refs (list_ascii_of_string q) = map Z.of_nat (seq 1 (List.length ps)).
Proof.
  intros H. unfold build in H.
  assert (S0 : state_ok base_query [] 1) by (split; [vm_compute; reflexivity | reflexivity]).
  cbv beta iota zeta in H.
  destruct (truthy (startDate b)) eqn:E1;

    [destruct (startDate b) as [v1 |]; [| discriminate] |]; cbv beta iota in H;
  (destruct (truthy (endDate b)) eqn:E2;
    [destruct (endDate b) as [v2 |]; [| discriminate] |]; cbv beta iota in H);
  (destruct (titles b) as [t |]; cbv beta iota in H;
   repeat (cbn [gt_zero length_of truthy] in H;
           match type of H with
           | context [if ?c then _ else _] =>
               lazymatch c with
               | true => fail | false => fail | truthy (publisher b) => fail | _ => destruct c
               end
           | context [match ?o with Some _ => _ | None => _ end] =>
               lazymatch o with
               | Some _ => fail | None => fail | publisher b => fail | _ => destruct o
               end
           | context [match ?t with JsNull => _ | _ => _ end] =>
               is_var t; destruct t
           end; cbv beta iota in H));
  (destruct (truthy (publisher b)) eqn:E4;
    [destruct (publisher b) as [v4 |]; [| discriminate] |]; cbv beta iota in H);
  try (destruct (to_string v4); cbv beta iota in H);
  try discriminate H;
  injection H as <- <-;
  (eapply proj1, state_literal; [| reflexivity | reflexivity]);
  repeat first [ exact S0
               | eapply state_placeholder; [| reflexivity | reflexivity | reflexivity | reflexivity |]
               | eapply state_placeholder_end; [| reflexivity | reflexivity |]
               | eapply state_titles ].
  all: reflexivity.
Qed.

Definition sample_report : body :=
  {| publisher := Some (JsStr "Penguin"); startDate := Some (JsStr "2024-01-01");
     endDate := None; titles := Some (JsArr [JsStr "Emma"; JsStr "Persuasion"]) |}.

Lemma report_params_aligned_witness :
  exists q ps, build sample_report = inl (q, ps)
    /\ param_refs (list_ascii_of_string q) = map Z.of_nat (seq 1 (List.length ps)).
Proof.
  eexists _, _. split; [vm_compute; reflexivity |].
  apply (report_params_aligned sample_report). vm_compute. reflexivity.
Defined.

(** The query builder of [POST /api/generate-report] fails exactly
    when (a) [titles] is a string of at least one character: its
    [length] is positive and [titles.map] is not a function; or (b)
    [titles] is an object whose [length] property is not [<= 0] for
    [titles.length > 0]: the comparison either holds, and [titles.map]
    is not a function, or throws; or (c) [publisher] is truthy and
    cannot be converted to a string (an object with an own [toString]
    property, or an array holding one).  Any array of titles, a number,
    a boolean, [null], an empty string or a missing field never make it
    fail. *)
Theorem report_build_error (b : body) :
  (exists msg, build b = inr msg) <->
  ((exists s, titles b = Some (JsStr s) /\ utf16_length s <> 0%nat)
   \/ (exists fs, titles b = Some (JsObj fs) /\ gt_zero (field "length" fs) <> Some false)
   \/ (exists v, publisher b = Some v /\ truthy (Some v) = true /\ to_string v = None)).
Proof.
  match goal with |- _ <-> ?R => remember R as RHS eqn:HR end.
  unfold build. cbv beta iota zeta.
  destruct (truthy (startDate b)), (truthy (endDate b)); cbv beta iota;
  destruct (titles b) as [[| b0 | m e | s | xs | fs] |] eqn:Ht;
  cbn [truthy length_of gt_zero]; cbv beta iota;
  destruct (publisher b) as [v |] eqn:Hp; cbv beta iota;
  repeat match goal with
         | |- context [if ?c then _ else _] =>
             lazymatch c with true => fail | false => fail | _ => destruct c eqn:? end;
             cbv beta iota
         | |- context [match ?o with Some _ => _ | None => _ end] =>
             lazymatch o with Some _ => fail | None => fail | _ => destruct o eqn:? end;
             cbv beta iota
         end.
  all: subst RHS; rewrite ?Ht, ?Hp.
  all: split; [intros [msg Hm]; try discriminate Hm | intros Hd; try (eexists; reflexivity)].
  all: repeat match goal with
              | H : (_ <? _) = true |- _ => apply Z.ltb_lt in H
              | H : (_ <? _) = false |- _ => apply Z.ltb_ge in H
              | H : negb (String.eqb _ _) = false |- _ =>
                  apply negb_false_iff, String.eqb_eq in H; subst
              end.
  all: first
    [ left; eexists; split; [reflexivity | lia]
    | right; left; eexists; split; [reflexivity | congruence]
    | right; right; eexists; split; [reflexivity | split; congruence]
    | destruct Hd as [[s' [Hs Hne]] | [[fs' [Hf Hg]] | [v' [Hv [Htr Hn]]]]]; simplify_eq;
      first [ lia | congruence | (exfalso; apply Hne; reflexivity) ] ].
Qed.

End ReportFacts.

(** ** The CSV export *)

Module ExportFacts.
Import Gazelle CsvExport.

(** A reader of RFC 4180 CSV with LF line ends, to read the export back:
    a field that starts with a double quote runs to the next lone double
    quote, a doubled one standing for one double quote; other fields
    run to the next comma or line end. *)
Inductive mode := Unquoted | InQuotes | QuoteSeen.

Record reader := {
  r_rows : list (list string);
  r_fields : list string;
  r_cur : list ascii;
  r_mode : mode }.

Definition dq : ascii := ascii_of_nat 34.
Definition nl : ascii := ascii_of_nat 10.

Definition with_cur (st : reader) (cur : list ascii) (m : mode) : reader :=
  {| r_rows := r_rows st; r_fields := r_fields st; r_cur := cur; r_mode := m |}.

Definition end_field (st : reader) : reader :=
  {| r_rows := r_rows st; r_fields := r_fields st ++ [string_of_list_ascii (r_cur st)];
     r_cur := []; r_mode := Unquoted |}.

Definition end_row (st : reader) : reader :=
  {| r_rows := r_rows st ++ [r_fields st ++ [string_of_list_ascii (r_cur st)]];
     r_fields := []; r_cur := []; r_mode := Unquoted |}.

Definition step (st : reader) (c : ascii) : reader :=
  match r_mode st with
  | Unquoted =>
      if Ascii.eqb c "," then end_field st
      else if Ascii.eqb c nl then end_row st
      else if Ascii.eqb c dq && (match r_cur st with [] => true | _ => false end)
      then with_cur st [] InQuotes
      else with_cur st (r_cur st ++ [c]) Unquoted
  | InQuotes =>
      if Ascii.eqb c dq then with_cur st (r_cur st) QuoteSeen
      else with_cur st (r_cur st ++ [c]) InQuotes
  | QuoteSeen =>
      if Ascii.eqb c dq then with_cur st (r_cur st ++ [c]) InQuotes
      else if Ascii.eqb c "," then end_field st
      else if Ascii.eqb c nl then end_row st
      else with_cur st (r_cur st ++ [c]) Unquoted
  end.

Definition start : reader := {| r_rows := []; r_fields := []; r_cur := []; r_mode := Unquoted |}.

Definition read_csv (s : string) : list (list string) :=
  let st := fold_left step (list_ascii_of_string s) start in
  match r_fields st, r_cur st, r_mode st with
  | [], [], Unquoted => r_rows st
  | _, _, _ => r_rows (end_row st)
  end.

(** A text the export may write unquoted: no comma, no line feed, and
    no double quote in front. *)
Definition plain (c : ascii) : bool := negb (Ascii.eqb c ",") && negb (Ascii.eqb c nl).

Definition safe (s : string) : bool :=
  forallb plain (list_ascii_of_string s)
  && match list_ascii_of_string s with c :: _ => negb (Ascii.eqb c dq) | [] => true end.

Definition raw_safe (r : record) : bool :=
  safe (order_ref r) && safe (country r) && safe (isbn13 r) && safe (format r).

Definition text (f : field) : string := match f with Quoted s | Raw s => s end.

Definition field_ok (f : field) : bool :=
  match f with Quoted _ => true | Raw s => safe s end.

(** The texts of a row's columns, before quoting. *)
Definition columns (r : record) : list string :=
  [order_ref r; match order_date r with Some d => date_text d | None => "" end;
   customer_name r; city r; country r; title r; isbn13 r;
   number_to_string (quantity r) 0; numeric_text (unit_price r); numeric_text (discount r);
   publisher r; format r].

Definition at_field (rows : list (list string)) (fields : list string) : reader :=
  {| r_rows := rows; r_fields := fields; r_cur := []; r_mode := Unquoted |}.

Lemma forallb_Forall {A} (f : A -> bool) (l : list A) :
  forallb f l = true -> Forall (fun x => f x = true) l.
Proof.
  induction l as [| x l IH]; intros H; constructor; cbn in H;
    apply andb_prop in H as [H1 H2]; auto.
Qed.

Lemma raw_tail (l : list ascii) (st : reader) :
  Forall (fun c => plain c = true) l -> r_mode st = Unquoted -> r_cur st <> [] ->
  fold_left step l st = with_cur st (r_cur st ++ l) Unquoted.
Proof.
  revert st. induction l as [| c l IH]; intros st Hl Hm Hc.
  - destruct st; cbn in *; subst. rewrite app_nil_r. reflexivity.
  - apply Forall_cons in Hl as [Hp Hl]. unfold plain in Hp.
    apply andb_prop in Hp as [H1 H2]. apply negb_true_iff in H1, H2.
    cbn [fold_left]. unfold step at 2. rewrite Hm, H1, H2.
    replace (match r_cur st with [] => true | _ => false end) with false
      by (destruct (r_cur st); [contradiction | reflexivity]).
    rewrite andb_false_r.
    rewrite IH; [| exact Hl | reflexivity | cbn; destruct (r_cur st); discriminate].
    cbn. rewrite <- app_assoc. reflexivity.
Qed.

Lemma raw_field (s : string) (rows : list (list string)) (fields : list string) :
  safe s = true ->
  fold_left step (list_ascii_of_string s) (at_field rows fields)
  = {| r_rows := rows; r_fields := fields; r_cur := list_ascii_of_string s; r_mode := Unquoted |}.
Proof.
  unfold safe. destruct (list_ascii_of_string s) as [| c l]; intros H; [reflexivity |].
  apply andb_prop in H as [Hall Hd]. apply negb_true_iff in Hd.
  apply forallb_Forall, Forall_cons in Hall as [Hp Hl].
  pose proof Hp as Hp'. unfold plain in Hp'.
  apply andb_prop in Hp' as [H1 H2]. apply negb_true_iff in H1, H2.
  cbn [fold_left]. unfold step at 2. cbn [r_mode r_cur at_field]. rewrite H1, H2, Hd.
  cbn [andb]. rewrite raw_tail; [reflexivity | exact Hl | reflexivity | discriminate].
Qed.

Lemma quoted_body (l : list ascii) (st : reader) :
  r_mode st = InQuotes ->
  fold_left step (flat_map (fun c => if Ascii.eqb c dq then [c; c] else [c]) l) st
  = with_cur st (r_cur st ++ l) InQuotes.
Proof.
  revert st. induction l as [| c l IH]; intros st Hm.
  - destruct st; cbn in *; subst. rewrite app_nil_r. reflexivity.
  - cbn [flat_map]. rewrite fold_left_app.
    destruct (Ascii.eqb c dq) eqn:Ec; cbn [fold_left].
    + replace (step st c) with (with_cur st (r_cur st) QuoteSeen)
        by (unfold step; rewrite Hm, Ec; reflexivity).
      replace (step (with_cur st (r_cur st) QuoteSeen) c)
        with (with_cur st (r_cur st ++ [c]) InQuotes)
        by (unfold step; cbn; rewrite Ec; reflexivity).
      rewrite IH by reflexivity. cbn. rewrite <- app_assoc. reflexivity.
    + replace (step st c) with (with_cur st (r_cur st ++ [c]) InQuotes)
        by (unfold step; rewrite Hm, Ec; reflexivity).
      rewrite IH by reflexivity. cbn. rewrite <- app_assoc. reflexivity.
Qed.

Lemma dquote_chars : list_ascii_of_string PG.dquote = [dq].
Proof. reflexivity. Qed.

Lemma quoted_field (s : string) (rows : list (list string)) (fields : list string) :
  fold_left step (list_ascii_of_string (render (Quoted s))) (at_field rows fields)
  = {| r_rows := rows; r_fields := fields; r_cur := list_ascii_of_string s; r_mode := QuoteSeen |}.
Proof.
  cbn [render]. unfold double_quotes.
  rewrite !GazelleFacts.list_ascii_of_string_app, dquote_chars, list_ascii_of_string_of_list_ascii.
  cbn [app fold_left]. rewrite fold_left_app.
  replace (step (at_field rows fields) dq) with (with_cur (at_field rows fields) [] InQuotes)
    by reflexivity.
  rewrite quoted_body by reflexivity. reflexivity.
Qed.

Lemma field_comma (f : field) (rows : list (list string)) (fields : list string) :
  field_ok f = true ->
  fold_left step (list_ascii_of_string (render f) ++ [","%char]) (at_field rows fields)
  = at_field rows (fields ++ [text f]).
Proof.
  intros Hf. rewrite fold_left_app. destruct f as [s | s].
  - rewrite quoted_field.
    change (end_field {| r_rows := rows; r_fields := fields; r_cur := list_ascii_of_string s;
                         r_mode := QuoteSeen |} = at_field rows (fields ++ [s])).
    unfold end_field, at_field. cbn [r_rows r_fields r_cur].
    rewrite string_of_list_ascii_of_string. reflexivity.
  - cbn [render]. rewrite raw_field by exact Hf.
    change (end_field {| r_rows := rows; r_fields := fields; r_cur := list_ascii_of_string s;
                         r_mode := Unquoted |} = at_field rows (fields ++ [s])).
    unfold end_field, at_field. cbn [r_rows r_fields r_cur].
    rewrite string_of_list_ascii_of_string. reflexivity.
Qed.

Lemma field_nl (f : field) (rows : list (list string)) (fields : list string) :
  field_ok f = true ->
  fold_left step (list_ascii_of_string (render f) ++ [nl]) (at_field rows fields)
  = at_field (rows ++ [fields ++ [text f]]) [].
Proof.
  intros Hf. rewrite fold_left_app. destruct f as [s | s].
  - rewrite quoted_field.
    change (end_row {| r_rows := rows; r_fields := fields; r_cur := list_ascii_of_string s;
                       r_mode := QuoteSeen |} = at_field (rows ++ [fields ++ [s]]) []).
    unfold end_row, at_field. cbn [r_rows r_fields r_cur].
    rewrite string_of_list_ascii_of_string. reflexivity.
  - cbn [render]. rewrite raw_field by exact Hf.
    change (end_row {| r_rows := rows; r_fields := fields; r_cur := list_ascii_of_string s;
                       r_mode := Unquoted |} = at_field (rows ++ [fields ++ [s]]) []).
    unfold end_row, at_field. cbn [r_rows r_fields r_cur].
    rewrite string_of_list_ascii_of_string. reflexivity.
Qed.

Lemma line_read (fs : list field) (rows : list (list string)) (fields : list string) :
  fs <> [] -> Forall (fun f => field_ok f = true) fs ->
  fold_left step (list_ascii_of_string (Json.join "," (map render fs)) ++ [nl])
    (at_field rows fields)
  = at_field (rows ++ [fields ++ map text fs]) [].
Proof.
  revert fields. induction fs as [| f fs IH]; intros fields Hne Hok; [contradiction |].
  apply Forall_cons in Hok as [Hf Hok].
  destruct fs as [| g fs].
  - cbn [map Json.join]. apply field_nl, Hf.
  - change (Json.join "," (map render (f :: g :: fs)))
      with (render f ++ "," ++ Json.join "," (map render (g :: fs)))%string.
    rewrite !GazelleFacts.list_ascii_of_string_app.
    change (list_ascii_of_string ",") with [","%char].
    rewrite <- !app_assoc, (app_assoc (list_ascii_of_string (render f)) [","%char]).
    rewrite fold_left_app, field_comma by exact Hf.
    rewrite IH by (discriminate || exact Hok).
    cbn [map]. rewrite <- app_assoc. reflexivity.
Qed.

(** The characters of numbers and dates as the export writes them. *)
Definition numch (c : ascii) : bool :=
  Str.is_digit c || Ascii.eqb c "-" || Ascii.eqb c "." || Ascii.eqb c "/".

Definition numeric (s : string) : Prop := Forall (fun c => numch c = true) (list_ascii_of_string s).

Lemma numeric_app (s1 s2 : string) : numeric s1 -> numeric s2 -> numeric (s1 ++ s2).
Proof.
  unfold numeric. rewrite GazelleFacts.list_ascii_of_string_app. apply Forall_app_2.
Qed.

Lemma numeric_safe (s : string) : numeric s -> safe s = true.
Proof.
  unfold numeric, safe. intros H.
  assert (Hc : forall c, numch c = true -> plain c = true /\ Ascii.eqb c dq = false).
  { intros c Hn. unfold plain.
    destruct (Ascii.eqb_spec c ",") as [-> | _]; [cbv in Hn; discriminate |].
    destruct (Ascii.eqb_spec c nl) as [-> | _]; [cbv in Hn; discriminate |].
    destruct (Ascii.eqb_spec c dq) as [-> | _]; [cbv in Hn; discriminate |].
    split; reflexivity. }
  apply andb_true_intro. split.
  - induction H as [| c l Hn _ IH]; [reflexivity |].
    cbn [forallb]. rewrite IH, (proj1 (Hc c Hn)). reflexivity.
  - destruct H as [| c l Hn _]; [reflexivity |]. rewrite (proj2 (Hc c Hn)). reflexivity.
Qed.

Lemma number_to_string_0 (m : Z) :
  list_ascii_of_string (number_to_string m 0)
  = (if m <? 0 then ["-"%char] else []) ++ Str.digits (Z.abs m).
Proof.
  unfold number_to_string. rewrite list_ascii_of_string_of_list_ascii.
  cbn [Z.of_nat Z.pow]. rewrite Z.div_1_r, Z.mod_1_r.
  change (Str.digits (1 + 0)) with ["1"%char]. cbn [List.tl rev Str.drop_zeros].
  rewrite decide_True by reflexivity. destruct (m <? 0); reflexivity.
Qed.

Lemma numeric_number (m : Z) : numeric (number_to_string m 0).
Proof.
  unfold numeric. rewrite number_to_string_0.
  destruct (PagingFacts.digits_spec (Z.abs m)) as [Hd _]; [lia |].
  apply Forall_app_2.
  - destruct (m <? 0); repeat constructor.
  - eapply Forall_impl; [exact Hd |]. intros c Hc. unfold numch. rewrite Hc. reflexivity.
Qed.

Lemma numeric_lit (s : string) : forallb numch (list_ascii_of_string s) = true -> numeric s.
Proof. apply forallb_Forall. Qed.

Lemma numeric_pad2 (n : Z) : numeric (pad2 n).
Proof.
  unfold pad2. destruct (n <? 10);
    [apply numeric_app; [apply numeric_lit; reflexivity |] |]; apply numeric_number.
Qed.

Lemma numeric_date (d : Z) : numeric (date_text d).
Proof.
  unfold date_text. destruct (JSDate.civil_from_days d) as [[y m] dd].
  repeat (apply numeric_app; [first [apply numeric_pad2 | apply numeric_lit; reflexivity] |]).
  apply numeric_number.
Qed.

Lemma numeric_decimal (v : Z) : numeric (numeric_text v).
Proof.
  unfold numeric_text. apply numeric_app; [destruct (v <? 0); apply numeric_lit; reflexivity |].
  apply numeric_app; [apply numeric_number |].
  apply numeric_app; [apply numeric_lit; reflexivity | apply numeric_pad2].
Qed.

Lemma row_fields_ok (r : record) :
  raw_safe r = true -> Forall (fun f => field_ok f = true) (row_data r).
Proof.
  unfold raw_safe. intros H.
  apply andb_prop in H as [H H4]. apply andb_prop in H as [H H3]. apply andb_prop in H as [H1 H2].
  unfold row_data.
  repeat constructor; cbn [field_ok]; try assumption; apply numeric_safe;
    [destruct (order_date r); [apply numeric_date | constructor] | apply numeric_number
    | apply numeric_decimal | apply numeric_decimal].
Qed.

Lemma csv_chars (rows : list record) (acc : string) :
  list_ascii_of_string (fold_left (fun acc r => (acc ++ line r)%string) rows acc)
  = list_ascii_of_string acc ++ flat_map (fun r => list_ascii_of_string (line r)) rows.
Proof.
  revert acc. induction rows as [| r rows IH]; intros acc.
  - cbn. rewrite app_nil_r. reflexivity.
  - cbn [fold_left flat_map]. rewrite IH, GazelleFacts.list_ascii_of_string_app, app_assoc.
    reflexivity.
Qed.

Lemma rows_read (rows : list record) (done : list (list string)) :
  Forall (fun r => raw_safe r = true) rows ->
  fold_left step (flat_map (fun r => list_ascii_of_string (line r)) rows) (at_field done [])
  = at_field (done ++ map columns rows) [].
Proof.
  revert done. induction rows as [| r rows IH]; intros done H.
  - cbn. rewrite app_nil_r. reflexivity.
  - apply Forall_cons in H as [Hr H].
    cbn [flat_map]. rewrite fold_left_app. unfold line.
    rewrite GazelleFacts.list_ascii_of_string_app.
    change (list_ascii_of_string newline) with [nl].
    rewrite line_read by (discriminate || apply row_fields_ok, Hr).
    rewrite IH by exact H. cbn [map]. rewrite <- app_assoc. reflexivity.
Qed.

(** The CSV of [GET /api/export-all] reads back, with an RFC 4180
    reader, as the header row followed by one row per record holding
    exactly the texts of its twelve columns: commas, line breaks and
    double quotes in the customer name, city, title and publisher
    survive the quoting.  The condition is on the four columns written
    unquoted (order ref, country, ISBN-13 and format): no comma, no line
    feed, no leading double quote. *)
Theorem export_read_back (rows : list record) :
  Forall (fun r => raw_safe r = true) rows ->
  read_csv (csv rows) = headers :: map columns rows.
Proof.
  intros H.
  assert (Hst : fold_left step (list_ascii_of_string (csv rows)) start
                = at_field (headers :: map columns rows) []).
  { unfold csv. rewrite csv_chars, fold_left_app.
    rewrite GazelleFacts.list_ascii_of_string_app.
    change (list_ascii_of_string newline) with [nl].
    change start with (at_field [] []).
    change (Json.join "," headers) with (Json.join "," (map render (map Raw headers))).
    rewrite line_read by (discriminate || (repeat constructor)).
    rewrite rows_read by exact H. reflexivity. }
  unfold read_csv. rewrite Hst. reflexivity.
Qed.
Definition sample_sale : record :=
  {| order_ref := "ORD-1"; order_date := Some 20162;
     customer_name := String.string_of_list_ascii
       ["S"; "m"; "i"; "t"; "h"; ","; " "; dq; "J"; dq; nl; "B"]%char;
     city := "Leeds, UK"; country := "UK"; title := "A, B"; isbn13 := "9780000000001";
     quantity := 3; unit_price := -1250; discount := 5;
     publisher := "P"; format := "Paperback" |}.

Lemma export_read_back_witness :
  Forall (fun r => raw_safe r = true) [sample_sale]
  /\ read_csv (csv [sample_sale]) = headers :: map columns [sample_sale].
Proof.
  split; [repeat constructor |].
  apply export_read_back. repeat constructor.
Defined.
End ExportFacts.
